(** * pc-setup-python: the installer scripts of [installers.py]

    A shallow embedding of the provisioning script.  Every operation of
    [installers.py] is a program in a small monad that threads the log of
    what the process printed and which shell commands it ran, and that either
    returns a value or raises a Python exception.  The host (what a shell
    command answers, the working directory, whether [python3] is on the PATH)
    is a record the programs read.

    [cli.py] (the command runner [comm] and the warning classifier
    [car_apt_warning]) and [exceptions.py] are imported by [installers.py];
    the two functions are described by the specification and are written
    here from that description. *)

From Stdlib Require Import String Ascii List NArith ZArith Bool Lia Permutation.
Import ListNotations.
Open Scope list_scope.
Open Scope string_scope.

(** ** Python strings *)

(** [bool(s)] for a Python [str]: only the empty string is falsy. *)
Definition truthy (s : string) : bool :=
  match s with
  | EmptyString => false
  | String _ _ => true
  end.

(** [sub in s] for two Python [str]: [sub] occurs somewhere in [s]. *)
Fixpoint contains (sub s : string) : bool :=
  if prefix sub s then true
  else match s with
       | EmptyString => false
       | String _ s' => contains sub s'
       end.

(** The line feed and the double quote, by their codes. *)
Definition LF : ascii := ascii_of_nat 10.
Definition dquote : string := String (ascii_of_nat 34) EmptyString.

(** ** Exceptions and the subordinate process *)

(** [InstallationError] comes from [exceptions.py], [TimeoutExpired] from
    [subprocess], and [TimeoutError] is the builtin the specification names
    for the runner.  [TimeoutExpired] is not a subclass of [TimeoutError]. *)
Inductive exn : Type :=
| InstallationError (msg : string)
| TimeoutExpired
| TimeoutError.

(** What a subordinate shell process does: the text on its two streams, its
    exit code, and how long it runs ([None]: it never completes). *)
Record process : Type := Process {
  stdout : string;
  stderr : string;
  returncode : Z;
  runtime : option N
}.

Definition completes_within (p : process) (timeout : N) : bool :=
  match runtime p with
  | Some d => (d <=? timeout)%N
  | None => false
  end.

(** ** The host and the effects of the script *)

Inductive event : Type :=
| Printed (s : string)
| Ran (cmd : string) (p : process).

Definition trace : Type := list event.
Bind Scope list_scope with trace.

(** The host of one run.  [shell] is what the subordinate shell does with a
    command, given everything that happened before; [which] is
    [shutil.which]; [cwd] is [Path.cwd()].  [default_timeout] and
    [allow_list] are the two constants of [cli.py] the installers rely on:
    the timeout [comm] uses when its caller gives none, and the fixed list of
    benign substrings. *)
Record host : Type := Host {
  shell : trace -> string -> process;
  which : string -> option string;
  cwd : string;
  default_timeout : N;
  allow_list : list string
}.

Inductive res (A : Type) : Type :=
| Ret (a : A)
| Raise (e : exn).
Arguments Ret {A} a.
Arguments Raise {A} e.

(** A statement: from the log so far to a result and the log after it.  A
    raised exception keeps the log: what was printed and run stays so. *)
Definition M (A : Type) : Type := trace -> res A * trace.

Definition ret {A} (a : A) : M A := fun t => (Ret a, t).

Definition raise {A} (e : exn) : M A := fun t => (Raise e, t).

Definition bind {A B} (m : M A) (k : A -> M B) : M B :=
  fun t =>
    match m t with
    | (Ret a, t') => k a t'
    | (Raise e, t') => (Raise e, t')
    end.

Declare Scope py_scope.
Delimit Scope py_scope with py.
Notation "x <- m ;; k" := (bind m (fun x => k))
  (at level 61, m at next level, right associativity) : py_scope.
Notation "' pat <- m ;; k" := (bind m (fun x => match x with pat => k end))
  (at level 61, pat pattern, m at next level, right associativity) : py_scope.
Notation "m ;; k" := (bind m (fun _ => k))
  (at level 61, right associativity) : py_scope.
Open Scope py_scope.

(** [print(s)]. *)
Definition print (s : string) : M unit :=
  fun t => (Ret tt, (t ++ [Printed s])%list).

(** An expression statement: the value is computed and dropped. *)
Definition expr_stmt {A} (_ : A) : M unit := ret tt.

(** [for x in l: body]. *)
Fixpoint for_each {A} (l : list A) (body : A -> M unit) : M unit :=
  match l with
  | [] => ret tt
  | x :: l' => body x ;; for_each l' body
  end.

(** [try: body  except (classes): handler]. *)
Definition try_except {A} (body : M A) (caught : exn -> bool)
    (handler : M A) : M A :=
  fun t =>
    match body t with
    | (Ret a, t') => (Ret a, t')
    | (Raise e, t') => if caught e then handler t' else (Raise e, t')
    end.

(** [try: body  except (classes): handler  else: orelse]; the [else] suite
    runs after a body that raised nothing, outside the handler's reach. *)
Definition try_except_else {A B} (body : M A) (caught : exn -> bool)
    (handler : M B) (orelse : M B) : M B :=
  fun t =>
    match body t with
    | (Ret _, t') => orelse t'
    | (Raise e, t') => if caught e then handler t' else (Raise e, t')
    end.

(** The commands a log holds, with what each process did, in order. *)
Fixpoint ran (t : trace) : list (string * process) :=
  match t with
  | [] => []
  | Printed _ :: t' => ran t'
  | Ran c p :: t' => (c, p) :: ran t'
  end.

Definition commands (t : trace) : list string := map fst (ran t).

(** ** [cli.py] *)

(** Modelled from the spec: the lines of a text, for the classifier of
    [cli.py], which is not among the sources.  A line ends at a line feed;
    text after the last line feed is a line when it is not empty. *)
Fixpoint lines (s : string) : list string :=
  match s with
  | EmptyString => []
  | String c s' =>
      if Ascii.eqb c LF then EmptyString :: lines s'
      else match lines s' with
           | [] => [String c EmptyString]
           | l :: ls => String c l :: ls
           end
  end.

(** Modelled from the spec: whether a line matches a benign pattern, that
    is, holds one of the allow-listed substrings. *)
Definition benign_line (allowed : list string) (line : string) : bool :=
  existsb (fun b => contains b line) allowed.

(** Modelled from the spec: [car_apt_warning] of [cli.py], which is not among
    the sources.  Section 4.2: scan the stderr text against the fixed list of
    benign substrings; if every line matches a benign pattern, return empty,
    otherwise return the original text. *)
Definition car_apt_warning (h : host) (errs : string) : string :=
  if forallb (benign_line (allow_list h)) (lines errs) then EmptyString
  else errs.

(** Modelled from the spec: [comm] of [cli.py], which is not among the
    sources.  Section 4.1: run the command in a subordinate shell process and
    capture both streams; fail with [TimeoutError] if the process does not
    complete within the timeout; otherwise return both streams, whatever the
    exit code. *)
Definition comm (h : host) (cmd : string) (timeout : N)
    : M (string * string) :=
  fun t =>
    let p := shell h t cmd in
    let t' := (t ++ [Ran cmd p])%list in
    if completes_within p timeout then (Ret (stdout p, stderr p), t')
    else (Raise TimeoutError, t').

(** [comm(cmd)]: the call with the timeout left to its default. *)
Definition comm_ (h : host) (cmd : string) : M (string * string) :=
  comm h cmd (default_timeout h).

(** [if c: body], with no [else]. *)
Definition when (c : bool) (body : M unit) : M unit :=
  if c then body else ret tt.

(** ** [installers.py] *)

Section Installers.

Variable h : host.

Definition CURRENT_PATH : string := cwd h.
Definition CONFIG_FILES_PATH : string := CURRENT_PATH ++ "/files".
Definition DOWNLOADS_PATH : string := CURRENT_PATH ++ "/inst_downloads".

Definition list_apt_pkgs : list string :=
  [ "build-essential";
    "python3-dev";
    "pkg-config";
    "apt-transport-https";
    "cmake";
    "curl";
    "ca-certificates";
    "gnupg";
    "lsb-release";
    "htop";
    "mmv";
    "neovim";
    "tmux" ].

Definition list_snap_pkgs : list string :=
  [ "bitwarden";
    "jdownloader2";
    "libreoffice";
    "signal-desktop";
    "spotify";
    "vlc";
    "sublime-text --classic";
    "code --classic" ].

Definition pre_install : M bool :=
  let cmd := "mkdir " ++ DOWNLOADS_PATH in
  '(_, errs) <- comm_ h cmd ;;
  when (truthy errs)
    (raise (InstallationError "Failed pre-installation procedure.")) ;;
  ret true.

Definition install_apt_pkgs : M bool :=
  let pkgs := list_apt_pkgs in
  print "Installing Apt packages..." ;;
  for_each pkgs (fun pkg =>
    print ("Installing " ++ pkg ++ "...") ;;
    '(_, errs_) <- comm_ h ("apt install -y " ++ pkg) ;;
    when (truthy errs_)
      (let errs := car_apt_warning h errs_ in
       when (truthy errs)
         (raise (InstallationError ("Failed to install " ++ pkg ++ "."))))) ;;
  print "Apt packages successfully installed." ;;
  ret true.

Definition install_snap_pkgs : M bool :=
  let pkgs_ := list_snap_pkgs in
  let install_cmd := "snap install " in
  let flag := "--classic" in
  let '(unflg_pkgs, flg_pkgs) :=
    fold_left
      (fun '(unflg_pkgs, flg_pkgs) pkg =>
         if contains flag pkg then (unflg_pkgs, (flg_pkgs ++ [pkg])%list)
         else ((unflg_pkgs ++ [pkg])%list, flg_pkgs))
      pkgs_ ([], []) in
  print "Installing Snap packages..." ;;
  for_each flg_pkgs (fun pkg =>
    print ("Installing " ++ pkg ++ "...") ;;
    '(_, errs) <- comm_ h (install_cmd ++ " " ++ pkg) ;;
    when (truthy errs)
      (raise (InstallationError ("Failed to install " ++ pkg ++ ".")))) ;;
  for_each unflg_pkgs (fun pkg =>
    print ("Installing " ++ pkg ++ "...") ;;
    '(_, errs) <- comm_ h (install_cmd ++ " " ++ pkg) ;;
    when (truthy errs)
      (raise (InstallationError ("Failed to install " ++ pkg ++ ".")))) ;;
  print "Snap packages were successfully installed." ;;
  ret true.

Definition install_brave_browser : M bool :=
  let cmd :=
    "curl -fsSLo /usr/share/keyrings/brave-browser-archive-keyring.gpg "
    ++ "https://brave-browser-apt-release.s3.brave.com/brave-browser-archive-keyring.gpg" in
  print "Getting Brave Browser's signing keys..." ;;
  '(_, errs) <- comm_ h cmd ;;
  when (truthy errs)
    (raise (InstallationError "Failed to add Brave Browser's fingerprint.")) ;;
  print "Successfully added Brave Browser's signing keys." ;;
  let cmd :=
    "echo "
    ++ dquote
    ++ "deb [signed-by=/usr/share/keyrings/brave-browser-archive-keyring.gpg arch=amd64] "
    ++ "https://brave-browser-apt-release.s3.brave.com/ stable main"
    ++ dquote
    ++ " | "
    ++ "tee /etc/apt/sources.list.d/brave-browser-release.list" in
  print "Adding Brave Browser's apt repository..." ;;
  '(_, errs) <- comm_ h cmd ;;
  when (truthy errs)
    (raise (InstallationError "Failed to add Brave Browser's ppa.")) ;;
  print "Successfully added Brave Browser's apt repository." ;;
  let cmd := "apt update -y && apt install -y brave-browser" in
  print "Installing brave-browser..." ;;
  '(_, errs_) <- comm_ h cmd ;;
  when (truthy errs_)
    (let errs := car_apt_warning h errs_ in
     when (truthy errs)
       (raise (InstallationError
                 "Failed to install Brave Browser's apt package."))) ;;
  print "Installation successful." ;;
  ret true.

Definition install_docker : M bool :=
  let cmd :=
    "curl -fsSL https://download.docker.com/linux/ubuntu/gpg"
    ++ " | "
    ++ "gpg --dearmor -o /usr/share/keyrings/docker-archive-keyring.gpg" in
  print "Adding Docker signing keys..." ;;
  '(_, errs) <- comm_ h cmd ;;
  when (truthy errs)
    (raise (InstallationError "Failed to add Docker's fingerprint.")) ;;
  print "Successfully added Docker's signing keys." ;;
  let cmd :=
    "echo "
    ++ dquote
    ++ "deb [arch=$(dpkg --print-architecture) signed-by=/usr/share/keyrings/docker-archive-keyring.gpg] "
    ++ "https://download.docker.com/linux/ubuntu "
    ++ "$(lsb_release -cs) stable"
    ++ dquote
    ++ " | "
    ++ "tee /etc/apt/sources.list.d/docker.list > /dev/null" in
  print "Adding Docker apt repository..." ;;
  '(_, errs) <- comm_ h cmd ;;
  when (truthy errs)
    (raise (InstallationError "Failed to add Docker's ppa.")) ;;
  print "Docker's apt repository successfully added." ;;
  print "Updating apt repositories..." ;;
  let cmd := "apt update -y" in
  '(_, errs_) <- comm_ h cmd ;;
  when (truthy errs_)
    (let errs := car_apt_warning h errs_ in
     when (truthy errs)
       (raise (InstallationError "Failed to install Docker apt packages."))) ;;
  print "Apt repositories successfully updated." ;;
  let pkgs := ["docker-ce"; "docker-ce-cli"; "containerd.io"] in
  for_each pkgs (fun pkg =>
    print ("Installing " ++ pkg ++ "...") ;;
    '(_, errs_) <- comm_ h ("apt install -y " ++ pkg) ;;
    when (truthy errs_)
      (let errs := car_apt_warning h errs_ in
       when (truthy errs)
         (raise (InstallationError
                   ("Failed to install Docker " ++ pkg ++ "."))))) ;;
  print "Installation successful." ;;
  let cmd := "usermod -aG docker $USER" in
  print "Adding user to docker group..." ;;
  '(_, errs) <- comm_ h cmd ;;
  when (truthy errs)
    (print errs ;;
     raise (InstallationError "Failed to add user to docker group.")) ;;
  print "Successfully added user to Docker group" ;;
  ret true.

Definition install_fish_shell : M bool :=
  let cmd := "apt-add-repository ppa:fish-shell/release-3 -y" in
  print "Adding Fish shell's apt repository..." ;;
  '(_, errs) <- comm_ h cmd ;;
  when (truthy errs)
    (print errs ;;
     raise (InstallationError "Failed to add Fish's ppa.")) ;;
  print "Succesfully added." ;;
  let cmd := "apt update -y && apt install -y fish" in
  print "Installing fish..." ;;
  '(_, errs_) <- comm_ h cmd ;;
  when (truthy errs_)
    (let errs := car_apt_warning h errs_ in
     when (truthy errs)
       (print errs ;;
        raise (InstallationError "Failed to install Fish shell."))) ;;
  print "Installation successful." ;;
  ret true.

Definition install_google_chrome : M bool :=
  let file_name := "google-chrome-stable_current_amd64.deb" in
  let file_url := "https://dl.google.com/linux/direct/" ++ file_name in
  let cmd := "cd " ++ DOWNLOADS_PATH ++ " && curl -sO " ++ file_url in
  print "Downloading Google Chrome's .deb file..." ;;
  '(_, errs) <- comm_ h cmd ;;
  when (truthy errs)
    (print errs ;;
     raise (InstallationError
              "Failed to download Google Chrome's .deb file.")) ;;
  print "Download successful." ;;
  let cmd := "cd " ++ DOWNLOADS_PATH ++ " && apt install -y ./" ++ file_name in
  print "Installing Google Chrome from .deb file..." ;;
  '(_, errs_) <- comm_ h cmd ;;
  when (truthy errs_)
    (let errs := car_apt_warning h errs_ in
     when (truthy errs)
       (print errs ;;
        raise (InstallationError
                 "Failed to install Google Chrome from .deb file."))) ;;
  print "Installation successful." ;;
  ret true.

(** [if which(name):] a path is truthy unless it is the empty string, and
    [None] is falsy. *)
Definition found (name : string) : bool :=
  match which h name with
  | Some path => truthy path
  | None => false
  end.

Definition install_poetry : M bool :=
  let python_v := "" in
  let python_v := if found "python3" then "3" else python_v in
  let cmd :=
    "curl -sSL https://raw.githubusercontent.com/python-poetry/poetry/master/get-poetry.py | python"
    ++ python_v ++ " -" in
  print "Executing Poetry's installation script..." ;;
  '(_, errs) <- comm_ h cmd ;;
  when (truthy errs)
    (print errs ;;
     expr_stmt (InstallationError "Poetry was not installed.")) ;;
  print "Execution successful." ;;
  ret true.

Definition install_qbittorrent : M bool :=
  let cmd := "add-apt-repository ppa:qbittorrent-team/qbittorrent-stable -y" in
  print "Adding qbittorent's apt repository..." ;;
  '(_, errs) <- comm_ h cmd ;;
  when (truthy errs)
    (print errs ;;
     raise (InstallationError "Failed to add qbittorrent ppa.")) ;;
  print "Successfully added." ;;
  let cmd := "apt update -y && apt install qbittorrent -y" in
  print "Installing qbittorrent..." ;;
  '(_, errs_) <- comm_ h cmd ;;
  when (truthy errs_)
    (let errs := car_apt_warning h errs_ in
     when (truthy errs)
       (print errs ;;
        raise (InstallationError "Failed to install qbittorrent."))) ;;
  print "Installation successful." ;;
  ret true.

(** [except (InstallationError, TimeoutExpired)]. *)
Definition InstallationError_or_TimeoutExpired (e : exn) : bool :=
  match e with
  | InstallationError _ => true
  | TimeoutExpired => true
  | TimeoutError => false
  end.

Definition install_not_ppkd_prog : M bool :=
  print "Installing Brave Browser..." ;;
  try_except_else install_brave_browser InstallationError_or_TimeoutExpired
    (raise (InstallationError "Brave browser was not installed"))
    (print "Successfully installed Brave Browser.") ;;
  print "Installing Docker..." ;;
  try_except_else install_docker InstallationError_or_TimeoutExpired
    (raise (InstallationError "Docker was not installed."))
    (print "Successfully installed Docker.") ;;
  print "Installing Fish shell..." ;;
  try_except install_fish_shell InstallationError_or_TimeoutExpired
    (raise (InstallationError "Fish shell was not installed.")) ;;
  print "Successfully installed Fish shell." ;;
  print "Installing Google Chrome..." ;;
  try_except install_google_chrome InstallationError_or_TimeoutExpired
    (raise (InstallationError "Google Chrome was not installed.")) ;;
  print "Successfully installed Google Chrome." ;;
  print "Installing Poetry..." ;;
  try_except install_poetry InstallationError_or_TimeoutExpired
    (raise (InstallationError "Poetry was not installed.")) ;;
  print "Successfully installed Poetry." ;;
  print "Installing qbittorrent..." ;;
  try_except install_poetry InstallationError_or_TimeoutExpired
    (raise (InstallationError "qbittorrent was not installed.")) ;;
  print "Successfully installed qbittorrent." ;;
  ret true.

Definition cleanup : M bool :=
  let cmd := "rm -r " ++ DOWNLOADS_PATH in
  '(_, errs) <- comm_ h cmd ;;
  if truthy errs then ret false
  else
    let cmd := "apt autoclean && apt clean" in
    '(_, errs_) <- comm_ h cmd ;;
    if truthy errs_ then
      let errs := car_apt_warning h errs_ in
      if truthy errs then ret false
      else ret true
    else ret true.

End Installers.

(** ** Linear scripts

    Section 4.3 of the specification calls every installer a fixed, linear
    script.  [instr] is that reading made precise: a script is a list of
    announcements and of checked steps.  The installers above are not defined
    through it; each is proved equal to the run of its script below. *)

(** A checked step: the command, whether its stderr goes through the warning
    classifier, whether the error text is printed before the raise, and the
    message of the [InstallationError]. *)
Record step : Type := Step {
  cmd : string;
  classified : bool;
  echo : bool;
  failmsg : string
}.

Inductive instr : Type :=
| Say (s : string)
| Run (st : step).

(** The steps of a script, announcements dropped. *)
Fixpoint steps (s : list instr) : list step :=
  match s with
  | [] => []
  | Say _ :: s' => steps s'
  | Run st :: s' => st :: steps s'
  end.

Section Scripts.

Variable h : host.

(** The error text a step judges: the stderr, classified or raw. *)
Definition judged (st : step) (errs_ : string) : string :=
  if classified st then car_apt_warning h errs_ else errs_.

Definition run_step (st : step) : M unit :=
  '(_, errs_) <- comm_ h (cmd st) ;;
  when (truthy errs_)
    (let errs := judged st errs_ in
     when (truthy errs)
       (when (echo st) (print errs) ;;
        raise (InstallationError (failmsg st)))).

Fixpoint run_script (s : list instr) : M unit :=
  match s with
  | [] => ret tt
  | Say x :: s' => print x ;; run_script s'
  | Run st :: s' => run_step st ;; run_script s'
  end.

(** A real failure of a step, as the installers test it: the stderr is not
    empty and neither is what the step judges. *)
Definition real_failure (st : step) (p : process) : bool :=
  truthy (stderr p) && truthy (judged st (stderr p)).

(** The process of a step completed in time and was no real failure. *)
Definition passes (st : step) (p : process) : bool :=
  completes_within p (default_timeout h) && negb (real_failure st p).

(** What a step that did not pass raises. *)
Definition step_exn (st : step) (p : process) : exn :=
  if completes_within p (default_timeout h)
  then InstallationError (failmsg st)
  else TimeoutError.

Definition pre_install_script : list instr :=
  [ Run (Step ("mkdir " ++ DOWNLOADS_PATH h) false false
           "Failed pre-installation procedure.") ].

Definition apt_step (pkg : string) : step :=
  Step ("apt install -y " ++ pkg) true false
    ("Failed to install " ++ pkg ++ ".").

Definition installing (st : string -> step) (pkg : string) : list instr :=
  [ Say ("Installing " ++ pkg ++ "..."); Run (st pkg) ].

Definition apt_script : list instr :=
  (Say "Installing Apt packages..."
   :: flat_map (installing apt_step) list_apt_pkgs
   ++ [ Say "Apt packages successfully installed." ])%list.

Definition snap_step (pkg : string) : step :=
  Step ("snap install  " ++ pkg) false false
    ("Failed to install " ++ pkg ++ ".").

(** The order in which [install_snap_pkgs] takes the packages. *)
Definition snap_order : list string :=
  (filter (contains "--classic") list_snap_pkgs
   ++ filter (fun pkg => negb (contains "--classic" pkg)) list_snap_pkgs)%list.

Definition snap_script : list instr :=
  (Say "Installing Snap packages..."
   :: flat_map (installing snap_step) snap_order
   ++ [ Say "Snap packages were successfully installed." ])%list.

Definition brave_script : list instr :=
  [ Say "Getting Brave Browser's signing keys...";
    Run (Step
      ("curl -fsSLo /usr/share/keyrings/brave-browser-archive-keyring.gpg "
       ++ "https://brave-browser-apt-release.s3.brave.com/brave-browser-archive-keyring.gpg")
      false false "Failed to add Brave Browser's fingerprint.");
    Say "Successfully added Brave Browser's signing keys.";
    Say "Adding Brave Browser's apt repository...";
    Run (Step
      ("echo " ++ dquote
       ++ "deb [signed-by=/usr/share/keyrings/brave-browser-archive-keyring.gpg arch=amd64] "
       ++ "https://brave-browser-apt-release.s3.brave.com/ stable main"
       ++ dquote ++ " | "
       ++ "tee /etc/apt/sources.list.d/brave-browser-release.list")
      false false "Failed to add Brave Browser's ppa.");
    Say "Successfully added Brave Browser's apt repository.";
    Say "Installing brave-browser...";
    Run (Step "apt update -y && apt install -y brave-browser"
      true false "Failed to install Brave Browser's apt package.");
    Say "Installation successful." ].

Definition docker_step (pkg : string) : step :=
  Step ("apt install -y " ++ pkg) true false
    ("Failed to install Docker " ++ pkg ++ ".").

Definition docker_script : list instr :=
  ([ Say "Adding Docker signing keys...";
     Run (Step
       ("curl -fsSL https://download.docker.com/linux/ubuntu/gpg" ++ " | "
        ++ "gpg --dearmor -o /usr/share/keyrings/docker-archive-keyring.gpg")
       false false "Failed to add Docker's fingerprint.");
     Say "Successfully added Docker's signing keys.";
     Say "Adding Docker apt repository...";
     Run (Step
       ("echo " ++ dquote
        ++ "deb [arch=$(dpkg --print-architecture) signed-by=/usr/share/keyrings/docker-archive-keyring.gpg] "
        ++ "https://download.docker.com/linux/ubuntu "
        ++ "$(lsb_release -cs) stable"
        ++ dquote ++ " | "
        ++ "tee /etc/apt/sources.list.d/docker.list > /dev/null")
       false false "Failed to add Docker's ppa.");
     Say "Docker's apt repository successfully added.";
     Say "Updating apt repositories...";
     Run (Step "apt update -y" true false
       "Failed to install Docker apt packages.");
     Say "Apt repositories successfully updated." ]
   ++ flat_map (installing docker_step)
        ["docker-ce"; "docker-ce-cli"; "containerd.io"]
   ++ [ Say "Installation successful.";
        Say "Adding user to docker group...";
        Run (Step "usermod -aG docker $USER" false true
          "Failed to add user to docker group.");
        Say "Successfully added user to Docker group" ])%list.

Definition fish_script : list instr :=
  [ Say "Adding Fish shell's apt repository...";
    Run (Step "apt-add-repository ppa:fish-shell/release-3 -y"
      false true "Failed to add Fish's ppa.");
    Say "Succesfully added.";
    Say "Installing fish...";
    Run (Step "apt update -y && apt install -y fish"
      true true "Failed to install Fish shell.");
    Say "Installation successful." ].

Definition chrome_script : list instr :=
  [ Say "Downloading Google Chrome's .deb file...";
    Run (Step
      ("cd " ++ DOWNLOADS_PATH h ++ " && curl -sO "
       ++ "https://dl.google.com/linux/direct/"
       ++ "google-chrome-stable_current_amd64.deb")
      false true "Failed to download Google Chrome's .deb file.");
    Say "Download successful.";
    Say "Installing Google Chrome from .deb file...";
    Run (Step
      ("cd " ++ DOWNLOADS_PATH h ++ " && apt install -y ./"
       ++ "google-chrome-stable_current_amd64.deb")
      true true "Failed to install Google Chrome from .deb file.");
    Say "Installation successful." ].

Definition qbittorrent_script : list instr :=
  [ Say "Adding qbittorent's apt repository...";
    Run (Step "add-apt-repository ppa:qbittorrent-team/qbittorrent-stable -y"
      false true "Failed to add qbittorrent ppa.");
    Say "Successfully added.";
    Say "Installing qbittorrent...";
    Run (Step "apt update -y && apt install qbittorrent -y"
      true true "Failed to install qbittorrent.");
    Say "Installation successful." ].

End Scripts.

(** ** The operations that raise, and the multi-program sequence *)

(** The operations of [installers.py] that signal a failure by raising, each
    a run of its script.  [install_poetry], [install_not_ppkd_prog] and
    [cleanup] are not among them. *)
Inductive operation : Type :=
| PreInstall
| AptPkgs
| SnapPkgs
| BraveBrowser
| Docker
| FishShell
| GoogleChrome
| Qbittorrent.

Definition run_operation (h : host) (op : operation) : M bool :=
  match op with
  | PreInstall => pre_install h
  | AptPkgs => install_apt_pkgs h
  | SnapPkgs => install_snap_pkgs h
  | BraveBrowser => install_brave_browser h
  | Docker => install_docker h
  | FishShell => install_fish_shell h
  | GoogleChrome => install_google_chrome h
  | Qbittorrent => install_qbittorrent h
  end.

Definition script_of (h : host) (op : operation) : list instr :=
  match op with
  | PreInstall => pre_install_script h
  | AptPkgs => apt_script
  | SnapPkgs => snap_script
  | BraveBrowser => brave_script
  | Docker => docker_script
  | FishShell => fish_script
  | GoogleChrome => chrome_script h
  | Qbittorrent => qbittorrent_script
  end.

(** ASCII lower case, to compare names whatever their capitals. *)
Definition lower_ascii (c : ascii) : ascii :=
  let n := nat_of_ascii c in
  if (65 <=? n)%nat && (n <=? 90)%nat then ascii_of_nat (n + 32) else c.

Fixpoint lower (s : string) : string :=
  match s with
  | EmptyString => EmptyString
  | String c s' => String (lower_ascii c) (lower s')
  end.

(** A message names a subject when the subject occurs in it, capitals
    aside. *)
Definition mentions (subject msg : string) : bool :=
  contains (lower subject) (lower msg).

(** What an installation command installs: the command less its fixed
    head. *)
Definition package_of (head command : string) : string :=
  substring (String.length head) (String.length command - String.length head)
    command.

(** What a failing step of an operation is about: the package for the two
    package loops, the program otherwise. *)
Definition subject (op : operation) (st : step) : string :=
  match op with
  | PreInstall => "pre-installation"
  | AptPkgs => package_of "apt install -y " (cmd st)
  | SnapPkgs => package_of "snap install  " (cmd st)
  | BraveBrowser => "Brave Browser"
  | Docker => "Docker"
  | FishShell => "Fish"
  | GoogleChrome => "Google Chrome"
  | Qbittorrent => "qbittorrent"
  end.

(** One guarded call of [install_not_ppkd_prog]: what is printed before it,
    the installer, the message of the error raised in its handler, and what
    is printed after it. *)
Record guarded : Type := Guarded {
  announce : string;
  installer : M bool;
  failure : string;
  success : string
}.

Definition not_ppkd_programs (h : host) : list guarded :=
  [ Guarded "Installing Brave Browser..." (install_brave_browser h)
      "Brave browser was not installed"
      "Successfully installed Brave Browser.";
    Guarded "Installing Docker..." (install_docker h)
      "Docker was not installed."
      "Successfully installed Docker.";
    Guarded "Installing Fish shell..." (install_fish_shell h)
      "Fish shell was not installed."
      "Successfully installed Fish shell.";
    Guarded "Installing Google Chrome..." (install_google_chrome h)
      "Google Chrome was not installed."
      "Successfully installed Google Chrome.";
    Guarded "Installing Poetry..." (install_poetry h)
      "Poetry was not installed."
      "Successfully installed Poetry.";
    Guarded "Installing qbittorrent..." (install_poetry h)
      "qbittorrent was not installed."
      "Successfully installed qbittorrent." ].

Fixpoint run_guarded (l : list guarded) : M unit :=
  match l with
  | [] => ret tt
  | g :: l' =>
      print (announce g) ;;
      try_except (installer g) InstallationError_or_TimeoutExpired
        (raise (InstallationError (failure g))) ;;
      print (success g) ;;
      run_guarded l'
  end.

(** What leaves a guarded call whose installer raised [e]. *)
Definition reraised (g : guarded) (e : exn) : exn :=
  if InstallationError_or_TimeoutExpired e
  then InstallationError (failure g)
  else e.

(** The command [install_poetry] runs. *)
Definition poetry_cmd (h : host) : string :=
  "curl -sSL https://raw.githubusercontent.com/python-poetry/poetry/master/get-poetry.py | python"
  ++ (if found h "python3" then "3" else "") ++ " -".

(** ** Observations *)

(** The commands a statement ran when started on log [t], with what each
    process did. *)
Definition runs {A} (m : M A) (t : trace) : list (string * process) :=
  skipn (List.length (ran t)) (ran (snd (m t))).

(** The steps attempted, as the log shows them. *)
Definition attempted (done : list (step * process))
    : list (string * process) :=
  map (fun sp => (cmd (fst sp), snd sp)) done.

(** [sub] occurs in [s]. *)
Definition occurs (sub s : string) : Prop :=
  exists pre post, s = pre ++ sub ++ post.

(** The process completes within the timeout. *)
Definition completes (p : process) (timeout : N) : Prop :=
  exists d, runtime p = Some d /\ (d <= timeout)%N.

(** The host with another allow-list for the classifier. *)
Definition with_allow_list (h : host) (allowed : list string) : host :=
  Host (shell h) (which h) (cwd h) (default_timeout h) allowed.

(** [m] runs the commands [cmds], in this order and nothing else; it runs
    them all whenever it returns, and an initial segment when it raises. *)
Definition logs {A} (m : M A) (cmds : list string) : Prop :=
  forall t, exists new,
    ran (snd (m t)) = (ran t ++ new)%list
    /\ (exists rest, cmds = (map fst new ++ rest)%list)
    /\ (forall a, fst (m t) = Ret a -> map fst new = cmds).

(** The commands of the six guarded calls of [install_not_ppkd_prog]. *)
Definition not_ppkd_commands (h : host) : list string :=
  (map cmd (steps brave_script)
   ++ map cmd (steps docker_script)
   ++ map cmd (steps fish_script)
   ++ map cmd (steps (chrome_script h))
   ++ [poetry_cmd h]
   ++ [poetry_cmd h])%list.

(** The installers that [install_not_ppkd_prog] guards and that are runs of
    a script, each with the message of its handler. *)
Definition guarded_operations : list (operation * string) :=
  [ (BraveBrowser, "Brave browser was not installed");
    (Docker, "Docker was not installed.");
    (FishShell, "Fish shell was not installed.");
    (GoogleChrome, "Google Chrome was not installed.") ].

(** [m] only adds to the commands of the log. *)
Definition grows {A} (m : M A) : Prop :=
  forall t, exists new, ran (snd (m t)) = (ran t ++ new)%list.

(** The two checked commands of [cleanup], as steps; [cleanup] raises
    nothing of its own, so the steps carry no message. *)
Definition cleanup_steps (h : host) : list step :=
  [ Step ("rm -r " ++ DOWNLOADS_PATH h) false false "";
    Step "apt autoclean && apt clean" true false "" ].

(** A package attempted by [install_apt_pkgs] went well: its process
    completed in time and its stderr was empty or classified as benign. *)
Definition apt_ok (h : host) (d : string * process) : Prop :=
  completes (snd d) (default_timeout h)
  /\ (stderr (snd d) = "" \/ car_apt_warning h (stderr (snd d)) = "").

(** The commands of an operation, in the order of its script. *)
Definition commands_of (h : host) (op : operation) : list string :=
  map cmd (steps (script_of h op)).

(** A host on which every command completes in time and writes nothing to
    its stderr. *)
Definition quiet_shell (h : host) : Prop :=
  forall u c,
    completes_within (shell h u c) (default_timeout h) = true
    /\ stderr (shell h u c) = "".

(** ** Sample hosts *)

Definition quiet : process := Process "" "" 0 (Some 1%N).

Definition complains (errs : string) : process :=
  Process "" errs 100 (Some 1%N).

Definition sample_allow_list : list string :=
  [ "dpkg-preconfigure: unable to re-open stdin" ].

(** A host on which every command is quiet. *)
Definition quiet_host : host :=
  Host (fun _ _ => quiet) (fun _ => Some "/usr/bin/python3") "/home/user"
    60 sample_allow_list.

(** A host on which every command is quiet but [bad], which writes [errs] to
    its stderr. *)
Definition host_failing_at (bad errs : string) : host :=
  Host (fun _ c => if String.eqb c bad then complains errs else quiet)
    (fun _ => Some "/usr/bin/python3") "/home/user" 60 sample_allow_list.

(** Hosts on which one command of one installer fails. *)
Definition brave_key_host : host :=
  host_failing_at
    "curl -fsSLo /usr/share/keyrings/brave-browser-archive-keyring.gpg https://brave-browser-apt-release.s3.brave.com/brave-browser-archive-keyring.gpg"
    "curl: (6) Could not resolve host".

Definition docker_key_host : host :=
  host_failing_at
    "curl -fsSL https://download.docker.com/linux/ubuntu/gpg | gpg --dearmor -o /usr/share/keyrings/docker-archive-keyring.gpg"
    "gpg: no valid OpenPGP data found.".

(** A host like [quiet_host], with no [python3] on the PATH. *)
Definition host_without_python3 : host :=
  Host (fun _ _ => quiet) (fun _ => None) "/home/user" 60 sample_allow_list.

(** A host on which the installation of the qbittorrent package fails. *)
Definition qbittorrent_missing_host : host :=
  host_failing_at "apt update -y && apt install qbittorrent -y"
    "E: Unable to locate package qbittorrent".

(** * Properties *)

(** ** Strings *)

Lemma truthy_true (s : string) : truthy s = true <-> s <> "".
Proof.
  destruct s; simpl; split; intro H; try discriminate; try reflexivity.
  now elim H.
Qed.

Lemma truthy_false (s : string) : truthy s = false <-> s = "".
Proof.
  destruct s; simpl; split; intro H; try discriminate; reflexivity.
Qed.

Lemma prefix_iff (p s : string) :
  prefix p s = true <-> exists post, s = p ++ post.
Proof.
  revert s; induction p as [|a p IH]; intros s.
  - destruct s; split; intros _; try reflexivity; eexists; reflexivity.
  - destruct s as [|b s]; cbn [prefix append].
    + split; [discriminate | intros [post H]; discriminate].
    + destruct (ascii_dec a b) as [->|Hab].
      * rewrite IH. split; intros [post H]; exists post.
        -- now rewrite H.
        -- now injection H.
      * split; [discriminate | intros [post H]].
        injection H as H1 _. now elim Hab.
Qed.

(** [contains] decides [occurs]: Python's [in] on strings. *)
Lemma contains_iff (sub s : string) : contains sub s = true <-> occurs sub s.
Proof.
  unfold occurs. induction s as [|c s IH].
  - cbn [contains]. destruct (prefix sub "") eqn:Hp.
    + split; [intros _ | reflexivity].
      apply prefix_iff in Hp. destruct Hp as [post Hp].
      exists "", post. exact Hp.
    + split; [discriminate | intros [pre [post H]]].
      destruct pre; cbn [append] in H.
      * assert (prefix sub "" = true) by (apply prefix_iff; now exists post).
        congruence.
      * discriminate.
  - cbn [contains]. destruct (prefix sub (String c s)) eqn:Hp.
    + split; [intros _ | reflexivity].
      apply prefix_iff in Hp. destruct Hp as [post Hp].
      exists "", post. exact Hp.
    + rewrite IH. split.
      * intros [pre [post H]]. exists (String c pre), post.
        cbn [append]. now rewrite H.
      * intros [pre [post H]]. destruct pre as [|c' pre]; cbn [append] in H.
        -- assert (prefix sub (String c s) = true)
             by (apply prefix_iff; now exists post).
           congruence.
        -- injection H as _ H. now exists pre, post.
Qed.

Lemma benign_line_iff (allowed : list string) (line : string) :
  benign_line allowed line = true <->
  exists b, In b allowed /\ occurs b line.
Proof.
  unfold benign_line. rewrite existsb_exists.
  split; intros [b [Hin Hb]]; exists b; split; trivial;
    now apply contains_iff.
Qed.

(** ** The warning classifier *)

(** The classifier never invents text: what it returns is empty or its
    argument, and an empty stderr stays empty. *)
Lemma car_apt_warning_cases (h : host) (errs : string) :
  car_apt_warning h errs = "" \/ car_apt_warning h errs = errs.
Proof.
  unfold car_apt_warning.
  destruct (forallb _ _); [left | right]; reflexivity.
Qed.

Lemma car_apt_warning_truthy (h : host) (errs : string) :
  truthy (car_apt_warning h errs) = true -> truthy errs = true.
Proof.
  destruct (car_apt_warning_cases h errs) as [E|E]; rewrite E; simpl;
    [discriminate | trivial].
Qed.

(** C1.  For every stderr text each of whose lines holds some substring of
    the benign allow-list, [car_apt_warning] returns the empty string: the
    text is classified as not an error. *)
Theorem car_apt_warning_benign (h : host) (text : string) :
  (forall line, In line (lines text) ->
     exists b, In b (allow_list h) /\ occurs b line) ->
  car_apt_warning h text = "".
Proof.
  intros H. unfold car_apt_warning.
  replace (forallb (benign_line (allow_list h)) (lines text)) with true;
    [reflexivity|].
  symmetry. apply forallb_forall. intros line Hin.
  apply benign_line_iff. now apply H.
Qed.

Lemma car_apt_warning_benign_witness :
  car_apt_warning quiet_host
    "dpkg-preconfigure: unable to re-open stdin: No such file or directory"
  = "".
Proof.
  apply (car_apt_warning_benign quiet_host).
  intros line Hin. simpl in Hin. destruct Hin as [<-|[]].
  exists "dpkg-preconfigure: unable to re-open stdin". split.
  - simpl. left. reflexivity.
  - exists "", ": No such file or directory". reflexivity.
Defined.

(** C2.  For every stderr text with at least one line that holds no
    substring of the benign allow-list, [car_apt_warning] returns the text it
    was given, unchanged: the text is classified as a real failure. *)
Theorem car_apt_warning_failure (h : host) (text : string) :
  (exists line, In line (lines text) /\
     forall b, In b (allow_list h) -> ~ occurs b line) ->
  car_apt_warning h text = text.
Proof.
  intros [line [Hin Hno]]. unfold car_apt_warning.
  destruct (forallb _ _) eqn:Hall; [|reflexivity].
  rewrite forallb_forall in Hall. specialize (Hall line Hin).
  apply benign_line_iff in Hall. destruct Hall as [b [Hb Hocc]].
  now elim (Hno b Hb).
Qed.

Lemma car_apt_warning_failure_witness :
  car_apt_warning quiet_host
    (String.concat (String LF "")
       ["N: Ign:1 ... "; "E: Unable to locate package foo"])
  = String.concat (String LF "")
      ["N: Ign:1 ... "; "E: Unable to locate package foo"].
Proof.
  apply (car_apt_warning_failure quiet_host).
  exists "E: Unable to locate package foo". split.
  - vm_compute. right. left. reflexivity.
  - intros b Hb Hocc. apply contains_iff in Hocc.
    simpl in Hb. destruct Hb as [<-|[]]. vm_compute in Hocc. discriminate.
Defined.

(** ** The command runner *)

Lemma completes_within_iff (p : process) (timeout : N) :
  completes_within p timeout = true <-> completes p timeout.
Proof.
  unfold completes_within, completes. destruct (runtime p) as [d|].
  - rewrite N.leb_le. split.
    + intros H. now exists d.
    + intros [d' [E H]]. now injection E as ->.
  - split; [discriminate | intros [d [E _]]; discriminate].
Qed.

(** C3.  For every command and timeout, [comm] returns the captured
    (stdout, stderr) pair of the subordinate process when the process
    completes within the timeout, whatever its exit code, and fails with
    [TimeoutError] when it does not; either way the command was run. *)
Theorem comm_returns_or_times_out (h : host) (cmd : string) (timeout : N)
    (t : trace) :
  let p := shell h t cmd in
  (completes p timeout ->
     comm h cmd timeout t = (Ret (stdout p, stderr p), t ++ [Ran cmd p])%list)
  /\ (~ completes p timeout ->
     comm h cmd timeout t = (Raise TimeoutError, t ++ [Ran cmd p])%list).
Proof.
  intros p. unfold comm. fold p.
  destruct (completes_within p timeout) eqn:E; split; intros H;
    try reflexivity.
  - apply completes_within_iff in E. now elim H.
  - apply completes_within_iff in H. congruence.
Qed.

Lemma comm_returns_or_times_out_witness :
  comm (host_failing_at "false" "boom") "false" 5 []
  = (Ret ("", "boom"), [Ran "false" (complains "boom")])
  /\ comm (host_failing_at "false" "boom") "false" 0 []
     = (Raise TimeoutError, [Ran "false" (complains "boom")]).
Proof.
  split.
  - apply (proj1 (comm_returns_or_times_out
                    (host_failing_at "false" "boom") "false" 5 [])).
    exists 1%N. split; [reflexivity | vm_compute; discriminate].
  - apply (proj2 (comm_returns_or_times_out
                    (host_failing_at "false" "boom") "false" 0 [])).
    intros [d [E H]]. vm_compute in E. injection E as <-.
    vm_compute in H. now apply H.
Defined.

(** ** Logs and the monad *)

Lemma ran_app (t u : trace) : ran (t ++ u) = (ran t ++ ran u)%list.
Proof.
  induction t as [|[s|c p] t IH]; simpl; trivial. now rewrite IH.
Qed.

Lemma ran_printed (t : trace) (s : string) : ran (t ++ [Printed s]) = ran t.
Proof. rewrite ran_app. simpl. apply app_nil_r. Qed.

Lemma ran_ran (t : trace) (c : string) (p : process) :
  ran (t ++ [Ran c p]) = (ran t ++ [(c, p)])%list.
Proof. now rewrite ran_app. Qed.

Lemma skipn_length_app {A} (l l' : list A) :
  skipn (List.length l) (l ++ l')%list = l'.
Proof. induction l; simpl; trivial. Qed.

(** When the log grew by [new] commands, [runs] is [new]. *)
Lemma runs_eq {A} (m : M A) (t : trace) (new : list (string * process)) :
  ran (snd (m t)) = (ran t ++ new)%list -> runs m t = new.
Proof. intros E. unfold runs. rewrite E. apply skipn_length_app. Qed.

Lemma bind_print {B} (s : string) (k : unit -> M B) (t : trace) :
  bind (print s) k t = k tt (t ++ [Printed s])%list.
Proof. reflexivity. Qed.

Lemma bind_assoc {A B C} (m : M A) (k : A -> M B) (k' : B -> M C)
    (t : trace) :
  bind (bind m k) k' t = bind m (fun a => bind (k a) k') t.
Proof. unfold bind. destruct (m t) as [[a|e] u]; trivial. Qed.

Lemma bind_ext {A B} (m : M A) (k k' : A -> M B) (t : trace) :
  (forall a u, k a u = k' a u) -> bind m k t = bind m k' t.
Proof.
  intros H. unfold bind. destruct (m t) as [[a|e] u]; trivial.
Qed.

Lemma bind_eq {A B} (m m' : M A) (k : A -> M B) (t : trace) :
  m t = m' t -> bind m k t = bind m' k t.
Proof. intros H. unfold bind. now rewrite H. Qed.

Lemma for_each_ext {A} (l : list A) (f g : A -> M unit) :
  (forall x t, f x t = g x t) -> forall t, for_each l f t = for_each l g t.
Proof.
  intros H. induction l as [|x l IH]; intros t; simpl; trivial.
  rewrite (bind_eq _ _ _ _ (H x t)). apply bind_ext. intros _ u. apply IH.
Qed.

(** ** Scripts *)

Section ScriptFacts.

Variable h : host.

(** A step either passes, leaving its command in the log, or raises at once
    the exception [step_exn] names, the command being the last thing run. *)
Lemma run_step_spec (st : step) (t : trace) :
  let p := shell h t (cmd st) in
  if passes h st p
  then run_step h st t = (Ret tt, t ++ [Ran (cmd st) p])%list
  else fst (run_step h st t) = Raise (step_exn h st p)
       /\ ran (snd (run_step h st t)) = (ran t ++ [(cmd st, p)])%list.
Proof.
  intros p. unfold passes, real_failure, step_exn, run_step, comm_, comm,
    bind, when, print, raise, ret.
  fold p.
  destruct (completes_within p (default_timeout h)); simpl.
  - destruct (truthy (stderr p)); simpl; trivial.
    destruct (truthy (judged h st (stderr p))); simpl; trivial.
    destruct (echo st); simpl; split; trivial.
    + now rewrite ran_printed, ran_ran.
    + apply ran_ran.
  - split; trivial. apply ran_ran.
Qed.

Lemma run_script_app (a b : list instr) (t : trace) :
  run_script h (a ++ b) t = (run_script h a ;; run_script h b) t.
Proof.
  revert t; induction a as [|[s|st] a IH]; intros t.
  - reflexivity.
  - cbn [app run_script]. rewrite bind_assoc, !bind_print. apply IH.
  - cbn [app run_script]. rewrite bind_assoc. apply bind_ext.
    intros _ u. apply IH.
Qed.

(** The run of a script, read off the log.  The steps attempted are an
    initial segment of the script's steps, in order.  The script returns
    exactly when all its steps were attempted and passed; it raises exactly
    when the last step attempted did not pass, every step before it having
    passed, and the exception is that step's. *)
Lemma run_script_spec (s : list instr) (t : trace) :
  exists done : list (step * process),
    ran (snd (run_script h s t)) = (ran t ++ attempted done)%list
    /\ exists rest,
         steps s = (map fst done ++ rest)%list
         /\ match fst (run_script h s t) with
            | Ret _ =>
                rest = []
                /\ Forall (fun sp => passes h (fst sp) (snd sp) = true) done
            | Raise e =>
                exists pre st p,
                  done = (pre ++ [(st, p)])%list
                  /\ Forall (fun sp => passes h (fst sp) (snd sp) = true) pre
                  /\ passes h st p = false
                  /\ e = step_exn h st p
            end.
Proof.
  revert t; induction s as [|[x|st] s IH]; intros t.
  - exists []. simpl. split; [now rewrite app_nil_r|].
    exists []. repeat split; constructor.
  - destruct (IH (t ++ [Printed x])%list) as [done [Hran Hrest]].
    exists done. split; [|exact Hrest].
    change (run_script h (Say x :: s) t)
      with (run_script h s (t ++ [Printed x])%list).
    now rewrite Hran, ran_printed.
  - pose proof (run_step_spec st t) as Hst. cbv zeta in Hst.
    set (p := shell h t (cmd st)) in *.
    cbn [run_script]. unfold bind.
    destruct (passes h st p) eqn:Hpass.
    + rewrite Hst.
      destruct (IH (t ++ [Ran (cmd st) p])%list)
        as [done [Hran [rest [Hsteps Hres]]]].
      exists ((st, p) :: done). split.
      * rewrite Hran, ran_ran, <- app_assoc. reflexivity.
      * exists rest. split; [simpl; now rewrite Hsteps|].
        destruct (fst (run_script h s (t ++ [Ran (cmd st) p])%list)).
        -- destruct Hres as [-> Hall]. split; trivial.
           constructor; trivial.
        -- destruct Hres as [pre [st' [p' [-> [Hpre [Hno He]]]]]].
           exists ((st, p) :: pre), st', p'. repeat split; trivial.
           constructor; trivial.
    + destruct Hst as [Hfst Hsnd].
      destruct (run_step h st t) as [[[]|e] u]; simpl in Hfst, Hsnd;
        try discriminate.
      exists [(st, p)]. simpl. split; [exact Hsnd|].
      exists (steps s). split; trivial.
      exists [], st, p. repeat split; trivial. congruence.
Qed.

(** The first step that does not pass ends the run: the script raises that
    step's exception and nothing is attempted after it. *)
Lemma first_failure_aborts (s : list instr) (t : trace)
    (c : string) (p : process) :
  In (c, p) (runs (run_script h s) t) ->
  exists st, In st (steps s) /\ cmd st = c /\
    (passes h st p = false ->
     fst (run_script h s t) = Raise (step_exn h st p)
     /\ exists before,
          runs (run_script h s) t = (before ++ [(c, p)])%list).
Proof.
  destruct (run_script_spec s t) as [done [Hran [rest [Hsteps Hres]]]].
  rewrite (runs_eq _ _ _ Hran). unfold attempted. rewrite in_map_iff.
  intros [[st p'] [E Hin]]. simpl in E. injection E as <- ->.
  exists st. split; [|split; trivial].
  - rewrite Hsteps. apply in_or_app. left.
    apply in_map_iff. now exists (st, p).
  - intros Hno. destruct (fst (run_script h s t)).
    + destruct Hres as [_ Hall]. rewrite Forall_forall in Hall.
      specialize (Hall _ Hin). simpl in Hall. congruence.
    + destruct Hres as [pre [st0 [p0 [-> [Hpre [Hno0 ->]]]]]].
      apply in_app_or in Hin. destruct Hin as [Hin|[E|[]]].
      * rewrite Forall_forall in Hpre. specialize (Hpre _ Hin).
        simpl in Hpre. congruence.
      * injection E as -> ->. split; trivial.
        exists (map (fun sp => (cmd (fst sp), snd sp)) pre).
        now rewrite map_app.
Qed.

End ScriptFacts.

(** ** Every raising operation is the run of its script *)

Section Refinement.

Variable h : host.

Lemma run_script_say {B} (x : string) (s : list instr) (k : M B)
    (t : trace) :
  (run_script h (Say x :: s) ;; k) t = (print x ;; run_script h s ;; k) t.
Proof. cbn [run_script]. apply bind_assoc. Qed.

Lemma run_script_run {B} (st : step) (s : list instr) (k : M B)
    (t : trace) :
  (run_script h (Run st :: s) ;; k) t
  = (run_step h st ;; run_script h s ;; k) t.
Proof. cbn [run_script]. apply bind_assoc. Qed.

(** The four shapes a checked command takes in [installers.py], each a
    [run_step]. *)
Lemma plain_step {B} (c msg : string) (K K' : M B) (t : trace) :
  (forall u, K u = K' u) ->
  ('(_, errs) <- comm_ h c ;;
   when (truthy errs) (raise (InstallationError msg)) ;;
   K) t
  = (run_step h (Step c false false msg) ;; K') t.
Proof.
  intros HK. unfold run_step. rewrite bind_assoc. apply bind_ext.
  intros [o errs] u. cbv [judged classified echo failmsg when bind ret raise].
  destruct (truthy errs); trivial.
Qed.

Lemma plain_echo_step {B} (c msg : string) (K K' : M B) (t : trace) :
  (forall u, K u = K' u) ->
  ('(_, errs) <- comm_ h c ;;
   when (truthy errs) (print errs ;; raise (InstallationError msg)) ;;
   K) t
  = (run_step h (Step c false true msg) ;; K') t.
Proof.
  intros HK. unfold run_step. rewrite bind_assoc. apply bind_ext.
  intros [o errs] u.
  cbv [judged classified echo failmsg when bind ret raise print].
  destruct (truthy errs); trivial.
Qed.

Lemma classified_step {B} (c msg : string) (K K' : M B) (t : trace) :
  (forall u, K u = K' u) ->
  ('(_, errs_) <- comm_ h c ;;
   when (truthy errs_)
     (when (truthy (car_apt_warning h errs_))
        (raise (InstallationError msg))) ;;
   K) t
  = (run_step h (Step c true false msg) ;; K') t.
Proof.
  intros HK. unfold run_step. rewrite bind_assoc. apply bind_ext.
  intros [o errs] u. cbv [judged classified echo failmsg when bind ret raise].
  destruct (truthy errs); trivial.
  destruct (truthy (car_apt_warning h errs)); trivial.
Qed.

Lemma classified_echo_step {B} (c msg : string) (K K' : M B) (t : trace) :
  (forall u, K u = K' u) ->
  ('(_, errs_) <- comm_ h c ;;
   when (truthy errs_)
     (when (truthy (car_apt_warning h errs_))
        (print (car_apt_warning h errs_) ;;
         raise (InstallationError msg))) ;;
   K) t
  = (run_step h (Step c true true msg) ;; K') t.
Proof.
  intros HK. unfold run_step. rewrite bind_assoc. apply bind_ext.
  intros [o errs] u.
  cbv [judged classified echo failmsg when bind ret raise print].
  destruct (truthy errs); trivial.
  destruct (truthy (car_apt_warning h errs)); trivial.
Qed.

(** One instruction of the script against one statement of the source. *)
Ltac peel :=
  lazymatch goal with
  | |- _ = (run_script h (Say _ :: _) ;; _) _ =>
      rewrite run_script_say, !bind_print
  | |- _ = (run_script h (Run _ :: _) ;; _) _ =>
      rewrite run_script_run;
      first [ apply plain_step | apply plain_echo_step
            | apply classified_step | apply classified_echo_step ];
      intros ?
  | |- _ = (run_script h [] ;; _) _ => reflexivity
  end.

Lemma pre_install_refines (t : trace) :
  pre_install h t = (run_script h (pre_install_script h) ;; ret true) t.
Proof.
  unfold pre_install, pre_install_script. cbv zeta. repeat peel.
Qed.

Lemma install_brave_browser_refines (t : trace) :
  install_brave_browser h t = (run_script h brave_script ;; ret true) t.
Proof.
  unfold install_brave_browser, brave_script. cbv zeta. repeat peel.
Qed.

Lemma install_fish_shell_refines (t : trace) :
  install_fish_shell h t = (run_script h fish_script ;; ret true) t.
Proof.
  unfold install_fish_shell, fish_script. cbv zeta. repeat peel.
Qed.

Lemma install_google_chrome_refines (t : trace) :
  install_google_chrome h t = (run_script h (chrome_script h) ;; ret true) t.
Proof.
  unfold install_google_chrome, chrome_script. cbv zeta. repeat peel.
Qed.

Lemma install_qbittorrent_refines (t : trace) :
  install_qbittorrent h t = (run_script h qbittorrent_script ;; ret true) t.
Proof.
  unfold install_qbittorrent, qbittorrent_script. cbv zeta. repeat peel.
Qed.

(** A loop that announces and installs each package is the run of the
    script with one announcement and one step per package. *)
Lemma for_each_installing (mk : string -> step) (body : string -> M unit)
    (pkgs : list string) :
  (forall pkg u,
     body pkg u
     = (print ("Installing " ++ pkg ++ "...") ;; run_step h (mk pkg)) u) ->
  forall t,
    for_each pkgs body t = run_script h (flat_map (installing mk) pkgs) t.
Proof.
  intros Hbody. induction pkgs as [|pkg pkgs IH]; intros t.
  - reflexivity.
  - cbn [for_each flat_map installing app run_script].
    rewrite (bind_eq _ _ _ _ (Hbody pkg t)), bind_assoc.
    apply bind_ext. intros _ u. apply bind_ext. intros _ v. apply IH.
Qed.

(** The same, with what follows the loop. *)
Lemma loop_then {B} (mk : string -> step) (body : string -> M unit)
    (pkgs : list string) (s : list instr) (K K' : M B) (t : trace) :
  (forall pkg u,
     body pkg u
     = (print ("Installing " ++ pkg ++ "...") ;; run_step h (mk pkg)) u) ->
  (forall u, K u = (run_script h s ;; K') u) ->
  (for_each pkgs body ;; K) t
  = (run_script h (flat_map (installing mk) pkgs ++ s) ;; K') t.
Proof.
  intros Hbody HK.
  rewrite (bind_eq _ _ _ _ (run_script_app h _ _ _)), bind_assoc.
  rewrite (bind_eq _ _ _ _ (for_each_installing mk body pkgs Hbody t)).
  apply bind_ext. intros _ u. apply HK.
Qed.

Lemma apt_body (mk_msg : string -> string) (pkg : string) (u : trace) :
  (print ("Installing " ++ pkg ++ "...") ;;
   '(_, errs_) <- comm_ h ("apt install -y " ++ pkg) ;;
   when (truthy errs_)
     (when (truthy (car_apt_warning h errs_))
        (raise (InstallationError (mk_msg pkg))))) u
  = (print ("Installing " ++ pkg ++ "...") ;;
     run_step h (Step ("apt install -y " ++ pkg) true false (mk_msg pkg))) u.
Proof.
  rewrite !bind_print. unfold run_step. apply bind_ext.
  intros [o errs] v. cbv [judged classified echo failmsg when bind ret raise].
  destruct (truthy errs); trivial.
Qed.

Lemma snap_body (pkg : string) (u : trace) :
  (print ("Installing " ++ pkg ++ "...") ;;
   '(_, errs) <- comm_ h ("snap install " ++ " " ++ pkg) ;;
   when (truthy errs)
     (raise (InstallationError ("Failed to install " ++ pkg ++ ".")))) u
  = (print ("Installing " ++ pkg ++ "...") ;; run_step h (snap_step pkg)) u.
Proof.
  rewrite !bind_print. unfold run_step. apply bind_ext.
  intros [o errs] v. cbv [judged classified echo failmsg when bind ret raise
                           snap_step].
  destruct (truthy errs); trivial.
Qed.

Lemma install_apt_pkgs_refines (t : trace) :
  install_apt_pkgs h t = (run_script h apt_script ;; ret true) t.
Proof.
  unfold install_apt_pkgs, apt_script. cbv zeta. peel.
  apply (loop_then apt_step).
  - intros pkg v.
    apply (apt_body (fun pkg => "Failed to install " ++ pkg ++ ".")).
  - intros v. repeat peel.
Qed.

Lemma install_docker_refines (t : trace) :
  install_docker h t = (run_script h docker_script ;; ret true) t.
Proof.
  unfold install_docker, docker_script. cbv zeta. cbn [app].
  do 9 peel.
  apply (loop_then docker_step).
  - intros pkg v.
    apply (apt_body (fun pkg => "Failed to install Docker " ++ pkg ++ ".")).
  - intros v. repeat peel.
Qed.

(** The loop that separates the flagged entries keeps, in each list, the
    entries in the order it met them. *)
Lemma separate_flagged (flag : string) (pkgs_ unflg flg : list string) :
  fold_left
    (fun '(unflg_pkgs, flg_pkgs) pkg =>
       if contains flag pkg then (unflg_pkgs, (flg_pkgs ++ [pkg])%list)
       else ((unflg_pkgs ++ [pkg])%list, flg_pkgs))
    pkgs_ (unflg, flg)
  = ((unflg ++ filter (fun pkg => negb (contains flag pkg)) pkgs_)%list,
     (flg ++ filter (contains flag) pkgs_)%list).
Proof.
  revert unflg flg. induction pkgs_ as [|pkg pkgs_ IH]; intros unflg flg.
  - simpl. now rewrite !app_nil_r.
  - cbn [fold_left filter]. destruct (contains flag pkg); cbn [negb].
    + rewrite IH, <- app_assoc. reflexivity.
    + rewrite IH, <- app_assoc. reflexivity.
Qed.

Lemma install_snap_pkgs_refines (t : trace) :
  install_snap_pkgs h t = (run_script h snap_script ;; ret true) t.
Proof.
  unfold install_snap_pkgs, snap_script, snap_order. cbv zeta.
  rewrite separate_flagged. cbn [app]. peel.
  rewrite flat_map_app, <- app_assoc.
  apply (loop_then snap_step); [apply snap_body|]. intros v.
  apply (loop_then snap_step); [apply snap_body|]. intros w.
  repeat peel.
Qed.

Lemma operation_refines (op : operation) (t : trace) :
  run_operation h op t = (run_script h (script_of h op) ;; ret true) t.
Proof.
  destruct op; cbn [run_operation script_of].
  - apply pre_install_refines.
  - apply install_apt_pkgs_refines.
  - apply install_snap_pkgs_refines.
  - apply install_brave_browser_refines.
  - apply install_docker_refines.
  - apply install_fish_shell_refines.
  - apply install_google_chrome_refines.
  - apply install_qbittorrent_refines.
Qed.

(** What an operation returns and logs, from the run of its script. *)
Lemma operation_result (op : operation) (t : trace) :
  fst (run_operation h op t)
  = match fst (run_script h (script_of h op) t) with
    | Ret _ => Ret true
    | Raise e => Raise e
    end
  /\ snd (run_operation h op t) = snd (run_script h (script_of h op) t).
Proof.
  rewrite operation_refines. unfold bind, ret.
  destruct (run_script h (script_of h op) t) as [[[]|e] u]; split; trivial.
Qed.

Lemma runs_operation (op : operation) (t : trace) :
  runs (run_operation h op) t = runs (run_script h (script_of h op)) t.
Proof.
  unfold runs. now rewrite (proj2 (operation_result op t)).
Qed.

End Refinement.

(** ** What a step's verdict means *)

Section Verdicts.

Variable h : host.

Lemma passes_true (st : step) (p : process) :
  passes h st p = true <->
  completes p (default_timeout h) /\ real_failure h st p = false.
Proof.
  unfold passes. rewrite andb_true_iff, negb_true_iff, completes_within_iff.
  reflexivity.
Qed.

Lemma real_failure_classified (st : step) (p : process) :
  classified st = true ->
  real_failure h st p = false <->
  stderr p = "" \/ car_apt_warning h (stderr p) = "".
Proof.
  intros Hc. unfold real_failure, judged. rewrite Hc.
  rewrite andb_false_iff, !truthy_false. reflexivity.
Qed.

Lemma real_failure_unclassified (st : step) (p : process) :
  classified st = false ->
  real_failure h st p = true <-> stderr p <> "".
Proof.
  intros Hc. unfold real_failure, judged. rewrite Hc.
  rewrite andb_true_iff, !truthy_true. tauto.
Qed.

Lemma step_exn_completes (st : step) (p : process) :
  completes p (default_timeout h) ->
  step_exn h st p = InstallationError (failmsg st).
Proof.
  intros H. apply completes_within_iff in H. unfold step_exn. now rewrite H.
Qed.

Lemma step_exn_times_out (st : step) (p : process) :
  ~ completes p (default_timeout h) -> step_exn h st p = TimeoutError.
Proof.
  intros H. unfold step_exn.
  destruct (completes_within p (default_timeout h)) eqn:E; trivial.
  apply completes_within_iff in E. now elim H.
Qed.

(** A real failure of a process that completed in time is a step that does
    not pass. *)
Lemma real_failure_fails (st : step) (p : process) :
  real_failure h st p = true -> passes h st p = false.
Proof. intros H. unfold passes. rewrite H. apply andb_false_r. Qed.

(** For each raising operation: the first step that does not pass ends the
    operation with that step's exception, and no later step is run. *)
Lemma operation_first_failure (op : operation) (t : trace)
    (c : string) (p : process) :
  In (c, p) (runs (run_operation h op) t) ->
  exists st, In st (steps (script_of h op)) /\ cmd st = c /\
    (passes h st p = false ->
     fst (run_operation h op t) = Raise (step_exn h st p)
     /\ exists before,
          runs (run_operation h op) t = (before ++ [(c, p)])%list).
Proof.
  rewrite runs_operation. intros Hin.
  destruct (first_failure_aborts h _ _ _ _ Hin) as [st [Hst [Hc Hfail]]].
  exists st. split; [exact Hst|]. split; [exact Hc|].
  intros Hno. destruct (Hfail Hno) as [Hraise Hlast]. split; [|exact Hlast].
  rewrite (proj1 (operation_result h op t)), Hraise. reflexivity.
Qed.

(** Every message an operation can raise names what the failing step is
    about. *)
Lemma failmsg_names_subject (op : operation) (st : step) :
  In st (steps (script_of h op)) ->
  mentions (subject op st) (failmsg st) = true.
Proof.
  destruct op; cbn; intros H;
    repeat (destruct H as [<-|H]; [vm_compute; reflexivity|]);
    destruct H.
Qed.

End Verdicts.

(** ** Failures that are not raised *)

(** C4, at the failing input.  On a host where the Poetry installation
    script writes to its stderr, [install_poetry] prints the error text,
    builds an [InstallationError] it never raises, reports success and
    returns [True]. *)
Theorem install_poetry_returns_True_on_failure :
  install_poetry
    (host_failing_at
       "curl -sSL https://raw.githubusercontent.com/python-poetry/poetry/master/get-poetry.py | python3 -"
       "curl: (6) Could not resolve host")
    []
  = (Ret true,
     [ Printed "Executing Poetry's installation script...";
       Ran "curl -sSL https://raw.githubusercontent.com/python-poetry/poetry/master/get-poetry.py | python3 -"
         (complains "curl: (6) Could not resolve host");
       Printed "curl: (6) Could not resolve host";
       Printed "Execution successful." ]).
Proof. vm_compute. reflexivity. Qed.

Section Cleanup.

Variable h : host.

(** What [cleanup] returns and logs, by cases on its two processes. *)
Lemma cleanup_result (t : trace) :
  let c1 := "rm -r " ++ DOWNLOADS_PATH h in
  let c2 := "apt autoclean && apt clean" in
  let p1 := shell h t c1 in
  let p2 := shell h (t ++ [Ran c1 p1])%list c2 in
  cleanup h t
  = if completes_within p1 (default_timeout h) then
      if truthy (stderr p1) then (Ret false, (t ++ [Ran c1 p1])%list)
      else if completes_within p2 (default_timeout h) then
        (Ret (negb (truthy (stderr p2)
                    && truthy (car_apt_warning h (stderr p2)))),
         ((t ++ [Ran c1 p1]) ++ [Ran c2 p2])%list)
      else (Raise TimeoutError, ((t ++ [Ran c1 p1]) ++ [Ran c2 p2])%list)
    else (Raise TimeoutError, (t ++ [Ran c1 p1])%list).
Proof.
  cbv zeta. unfold cleanup, bind, comm_, comm, ret.
  destruct (completes_within (shell h t _) _); [|reflexivity].
  destruct (truthy (stderr (shell h t _))); [reflexivity|].
  destruct (completes_within (shell h (t ++ _)%list _) _); [|reflexivity].
  destruct (truthy (stderr (shell h (t ++ _)%list _))); [|reflexivity].
  destruct (truthy (car_apt_warning h _)); reflexivity.
Qed.

(** A real failure of either command of [cleanup] makes it return
    [False]. *)
Lemma cleanup_returns_False (t : trace) (c : string) (p : process) :
  In (c, p) (runs (cleanup h) t) ->
  exists st, In st (cleanup_steps h) /\ cmd st = c /\
    (completes p (default_timeout h) -> real_failure h st p = true ->
     fst (cleanup h t) = Ret false).
Proof.
  pose proof (cleanup_result t) as H. cbv zeta in H.
  set (c1 := "rm -r " ++ DOWNLOADS_PATH h) in *.
  set (p1 := shell h t c1) in *.
  set (p2 := shell h (t ++ [Ran c1 p1])%list _) in *.
  assert (Hrm : forall q, In (c, q) [(c1, p1)] ->
            exists st, In st (cleanup_steps h) /\ cmd st = c /\
              (real_failure h st q = true -> truthy (stderr p1) = true)).
  { intros q [E|[]]. injection E as <- <-.
    exists (Step c1 false false ""). split; [now left|]. split; trivial.
    unfold real_failure, judged. cbn [classified].
    now rewrite andb_diag. }
  unfold runs. rewrite H. clear H.
  destruct (completes_within p1 (default_timeout h)) eqn:E1;
    [destruct (truthy (stderr p1)) eqn:T1;
     [|destruct (completes_within p2 (default_timeout h)) eqn:E2]|];
    cbn [fst snd]; rewrite ?ran_ran, <- ?app_assoc, skipn_length_app;
    intros Hin.
  - destruct (Hrm p Hin) as [st [Hst [Hc _]]].
    exists st. repeat split; trivial.
  - destruct Hin as [E|Hin].
    + destruct (Hrm p (or_introl E)) as [st [Hst [Hc Hf]]].
      exists st. repeat split; trivial. intros _ Hr.
      specialize (Hf Hr). congruence.
    + destruct Hin as [E|[]]. injection E as <- <-.
      exists (Step "apt autoclean && apt clean" true false "").
      split; [right; now left|]. split; trivial.
      unfold real_failure, judged. cbn [classified]. intros _ Hr.
      now rewrite Hr.
  - destruct Hin as [E|Hin].
    + destruct (Hrm p (or_introl E)) as [st [Hst [Hc Hf]]].
      exists st. repeat split; trivial. intros _ Hr.
      specialize (Hf Hr). congruence.
    + destruct Hin as [E|[]]. injection E as <- <-.
      exists (Step "apt autoclean && apt clean" true false "").
      split; [right; now left|]. split; trivial.
      intros Hc _. apply completes_within_iff in Hc. congruence.
  - destruct Hin as [E|[]]. injection E as <- <-.
    exists (Step c1 false false ""). split; [now left|]. split; trivial.
    intros Hc _. apply completes_within_iff in Hc. congruence.
Qed.

(** [cleanup] raises no [InstallationError]. *)
Lemma cleanup_never_raises_InstallationError (t : trace) :
  fst (cleanup h t) = Ret true \/ fst (cleanup h t) = Ret false
  \/ fst (cleanup h t) = Raise TimeoutError.
Proof.
  rewrite (cleanup_result t). cbv zeta.
  repeat match goal with
    | |- context [if ?b then _ else _] => destruct b
    end; cbn [fst]; try tauto.
  destruct (negb _); tauto.
Qed.

End Cleanup.

(** ** The package loops *)

Lemma steps_app (a b : list instr) :
  steps (a ++ b) = (steps a ++ steps b)%list.
Proof.
  induction a as [|[x|st] a IH]; simpl; trivial. now rewrite IH.
Qed.

Lemma steps_installing (mk : string -> step) (pkgs : list string) :
  steps (flat_map (installing mk) pkgs) = map mk pkgs.
Proof.
  induction pkgs as [|pkg pkgs IH]; simpl; trivial. now rewrite IH.
Qed.

(** The steps attempted in a package loop, read as the packages
    attempted. *)
Lemma attempts_of_packages (mk : string -> step) (pkgs : list string)
    (done_s : list (step * process)) (rest_s : list step) :
  map mk pkgs = (map fst done_s ++ rest_s)%list ->
  exists (done : list (string * process)) (rest : list string),
    pkgs = (map fst done ++ rest)%list
    /\ done_s = map (fun d => (mk (fst d), snd d)) done
    /\ rest_s = map mk rest.
Proof.
  revert pkgs. induction done_s as [|[st p] done_s IH]; intros pkgs H.
  - exists [], pkgs. repeat split. exact (eq_sym H).
  - destruct pkgs as [|pkg pkgs]; [discriminate|].
    simpl in H. injection H as Hst H.
    destruct (IH pkgs H) as [done [rest [-> [-> ->]]]].
    exists ((pkg, p) :: done), rest. repeat split. simpl. now rewrite Hst.
Qed.

Lemma append_cancel_head (head a b : string) :
  head ++ a = head ++ b -> a = b.
Proof.
  induction head as [|c head IH]; cbn [append]; intros H; trivial.
  injection H as H. now apply IH.
Qed.

Lemma append_dot_cancel (a b : string) : a ++ "." = b ++ "." -> a = b.
Proof.
  revert b. induction a as [|c a IH]; intros [|c' b]; cbn [append]; intros H;
    trivial.
  - injection H as _ H. destruct b; discriminate.
  - injection H as _ H. destruct a; discriminate.
  - injection H as -> H. f_equal. now apply IH.
Qed.

Lemma list_apt_pkgs_NoDup : NoDup list_apt_pkgs.
Proof.
  unfold list_apt_pkgs.
  repeat (constructor;
          [ simpl; intros H;
            repeat (destruct H as [H|H]; [discriminate H|]); exact H | ]).
  constructor.
Qed.

Section AptLoop.

Variable h : host.

Lemma apt_ok_iff (pkg : string) (p : process) :
  passes h (apt_step pkg) p = true <-> apt_ok h (pkg, p).
Proof.
  unfold apt_ok. rewrite passes_true.
  now rewrite (real_failure_classified h (apt_step pkg) p eq_refl).
Qed.

Lemma apt_not_ok (pkg : string) (p : process) :
  passes h (apt_step pkg) p = false ->
  completes p (default_timeout h) ->
  stderr p <> "" /\ car_apt_warning h (stderr p) <> "".
Proof.
  intros Hno Hc.
  assert (Hn : ~ apt_ok h (pkg, p)).
  { rewrite <- apt_ok_iff. congruence. }
  unfold apt_ok in Hn. cbn [snd] in Hn.
  split; intros E; apply Hn; tauto.
Qed.

(** C6.  [install_apt_pkgs] takes the packages of [list_apt_pkgs] in list
    order and runs [apt install -y <pkg>] for each.  A package whose
    process completed with an empty stderr, or with a stderr the classifier
    empties, is followed by the next one; [True] is returned when all went
    so.  The run raises the [InstallationError] naming a package exactly when
    that package's stderr was not empty and the classifier returned it not
    empty, and nothing is attempted after it. *)
Theorem install_apt_pkgs_spec (t : trace) :
  exists done : list (string * process),
    runs (install_apt_pkgs h) t
    = map (fun d => ("apt install -y " ++ fst d, snd d)) done
    /\ (exists rest,
          list_apt_pkgs = (map fst done ++ rest)%list
          /\ match fst (install_apt_pkgs h t) with
             | Ret b => b = true /\ rest = [] /\ Forall (apt_ok h) done
             | Raise e =>
                 exists pre pkg p,
                   done = (pre ++ [(pkg, p)])%list
                   /\ Forall (apt_ok h) pre
                   /\ ((completes p (default_timeout h)
                        /\ stderr p <> ""
                        /\ car_apt_warning h (stderr p) <> ""
                        /\ e = InstallationError
                                 ("Failed to install " ++ pkg ++ "."))
                       \/ (~ completes p (default_timeout h)
                           /\ e = TimeoutError))
             end)
    /\ (forall pkg p,
          In (pkg, p) done ->
          completes p (default_timeout h) ->
          (stderr p <> "" /\ car_apt_warning h (stderr p) <> ""
           <-> fst (install_apt_pkgs h t)
               = Raise (InstallationError
                          ("Failed to install " ++ pkg ++ ".")))).
Proof.
  destruct (run_script_spec h apt_script t)
    as [done_s [Hran [rest_s [Hsteps Hres]]]].
  assert (Hloop : steps apt_script = map apt_step list_apt_pkgs)
    by reflexivity.
  rewrite Hloop in Hsteps.
  destruct (attempts_of_packages _ _ _ _ Hsteps)
    as [done [rest [Hpkgs [-> ->]]]].
  pose proof (operation_result h AptPkgs t) as [Hfst Hsnd].
  cbn [run_operation script_of] in Hfst, Hsnd.
  assert (Hok : forall l,
            Forall (fun sp => passes h (fst sp) (snd sp) = true)
              (map (fun d => (apt_step (fst d), snd d)) l) ->
            Forall (apt_ok h) l).
  { intros l Hl. rewrite Forall_map in Hl.
    eapply Forall_impl; [|exact Hl].
    intros [pkg p] Hp. now apply apt_ok_iff. }
  exists done. split; [|split].
  - unfold runs. rewrite Hsnd. apply (runs_eq (run_script h apt_script)).
    rewrite Hran. unfold attempted. now rewrite map_map.
  - exists rest. split; [exact Hpkgs|]. rewrite Hfst.
    destruct (fst (run_script h apt_script t)).
    + destruct Hres as [Hrest Hall]. split; trivial. split.
      * now destruct rest.
      * now apply Hok.
    + destruct Hres as [pre_s [st [p [Hdone [Hpre [Hno ->]]]]]].
      apply map_eq_app in Hdone.
      destruct Hdone as [pre [last [-> [<- Hlast]]]].
      destruct last as [|[pkg q] [|? ?]]; try discriminate.
      injection Hlast as <- <-.
      exists pre, pkg, q. split; trivial. split; [now apply Hok|].
      cbn [fst snd] in *.
      destruct (completes_within q (default_timeout h)) eqn:Hc.
      * left. apply completes_within_iff in Hc.
        destruct (apt_not_ok _ _ Hno Hc). repeat split; trivial.
        now rewrite step_exn_completes.
      * right. assert (Hn : ~ completes q (default_timeout h)).
        { rewrite <- completes_within_iff. congruence. }
        split; trivial. now apply step_exn_times_out.
  - intros pkg p Hin Hc. rewrite Hfst.
    assert (Hnd : NoDup (map fst done)).
    { pose proof list_apt_pkgs_NoDup as Hnd. rewrite Hpkgs in Hnd.
      now apply NoDup_app_remove_r in Hnd. }
    destruct (fst (run_script h apt_script t)).
    + destruct Hres as [_ Hall]. apply Hok in Hall.
      rewrite Forall_forall in Hall. destruct (Hall _ Hin) as [_ Hgood].
      cbn [snd] in Hgood. split; [tauto | discriminate].
    + destruct Hres as [pre_s [st [q [Hdone [Hpre [Hno ->]]]]]].
      apply map_eq_app in Hdone.
      destruct Hdone as [pre [last [-> [<- Hlast]]]].
      destruct last as [|[pkg' q'] [|? ?]]; try discriminate.
      injection Hlast as <- <-. cbn [fst snd] in *.
      apply Hok in Hpre. rewrite Forall_forall in Hpre.
      apply in_app_or in Hin. destruct Hin as [Hin|[E|[]]].
      * destruct (Hpre _ Hin) as [_ Hgood]. cbn [snd] in Hgood.
        split; [tauto|]. intros E. exfalso.
        assert (E' : InstallationError (failmsg (apt_step pkg))
                     = InstallationError (failmsg (apt_step pkg'))).
        { injection E as E. unfold step_exn in E.
          destruct (completes_within q' (default_timeout h));
            [symmetry; exact E | discriminate E]. }
        injection E' as E'. cbn [failmsg apt_step] in E'.
        apply append_dot_cancel in E'.
        rewrite map_app in Hnd. apply NoDup_remove_2 in Hnd.
        rewrite app_nil_r in Hnd. apply Hnd.
        cbn [map fst]. rewrite <- E'. apply in_map_iff.
        now exists (pkg, p).
      * injection E as -> ->.
        rewrite (step_exn_completes h _ _ Hc).
        split; [reflexivity | intros _].
        now apply (apt_not_ok pkg).
Qed.

End AptLoop.

(** On the sample hosts a process that complains still completes in time. *)
Lemma complains_completes (errs : string) : completes (complains errs) 60.
Proof. exists 1%N. split; [reflexivity | vm_compute; discriminate]. Qed.

Lemma install_apt_pkgs_spec_witness :
  fst (install_apt_pkgs
         (host_failing_at "apt install -y build-essential"
            "E: Unable to locate package build-essential")
         [])
  = Raise (InstallationError "Failed to install build-essential.").
Proof.
  destruct (install_apt_pkgs_spec
              (host_failing_at "apt install -y build-essential"
                 "E: Unable to locate package build-essential")
              [])
    as [done [Hruns [_ Hiff]]].
  assert (Hr : runs (install_apt_pkgs
                       (host_failing_at "apt install -y build-essential"
                          "E: Unable to locate package build-essential"))
                 []
               = [ ("apt install -y build-essential",
                    complains "E: Unable to locate package build-essential") ])
    by (vm_compute; reflexivity).
  rewrite Hr in Hruns.
  destruct done as [|[pkg q] [|? ?]]; try discriminate Hruns.
  cbn [map fst snd append] in Hruns. injection Hruns as Hpkg Hq.
  subst pkg q.
  apply (proj1 (Hiff "build-essential"
                  (complains "E: Unable to locate package build-essential")
                  (or_introl eq_refl) (complains_completes _))).
  split; vm_compute; discriminate.
Defined.

(** ** The snap loop *)

(** Separating a list by a test loses and repeats nothing. *)
Lemma Permutation_separate {A} (f : A -> bool) (l : list A) :
  Permutation l (filter f l ++ filter (fun x => negb (f x)) l).
Proof.
  induction l as [|x l IH]; simpl; [constructor|].
  destruct (f x); simpl.
  - now constructor.
  - now apply Permutation_cons_app.
Qed.

Lemma firstn_map_prefix {A B} (f : A -> B) (l a b : list A) :
  l = (a ++ b)%list -> map f a = map f (firstn (List.length a) l).
Proof.
  intros ->. now rewrite firstn_app, firstn_all, Nat.sub_diag, app_nil_r.
Qed.

(** The flagged entries of the fixed list, then the others. *)
Example snap_order_eq :
  snap_order
  = [ "sublime-text --classic"; "code --classic";
      "bitwarden"; "jdownloader2"; "libreoffice"; "signal-desktop";
      "spotify"; "vlc" ].
Proof. vm_compute. reflexivity. Qed.

Section SnapLoop.

Variable h : host.

Lemma steps_snap_script : steps snap_script = map snap_step snap_order.
Proof.
  unfold snap_script. cbn [steps]. rewrite steps_app, steps_installing.
  cbn [steps]. apply app_nil_r.
Qed.

(** C10.  [install_snap_pkgs] separates the entries of the fixed snap list
    into those that hold [--classic] and those that do not, losing and
    repeating none; it installs the flagged entries first, then the others,
    each group in the order of the list: what it runs is an initial segment
    of that sequence, and the whole of it when it returns. *)
Theorem install_snap_pkgs_order (t : trace) :
  let flagged := filter (contains "--classic") list_snap_pkgs in
  let unflagged :=
    filter (fun pkg => negb (contains "--classic" pkg)) list_snap_pkgs in
  let install := fun pkg => "snap install  " ++ pkg in
  Permutation list_snap_pkgs (flagged ++ unflagged)
  /\ (exists n,
        map fst (runs (install_snap_pkgs h) t)
        = map install (firstn n (flagged ++ unflagged)))
  /\ (forall b,
        fst (install_snap_pkgs h t) = Ret b ->
        map fst (runs (install_snap_pkgs h) t)
        = map install (flagged ++ unflagged)).
Proof.
  intros flagged unflagged install.
  fold snap_order in flagged. change (flagged ++ unflagged)%list with snap_order.
  destruct (run_script_spec h snap_script t)
    as [done_s [Hran [rest_s [Hsteps Hres]]]].
  rewrite steps_snap_script in Hsteps.
  destruct (attempts_of_packages _ _ _ _ Hsteps)
    as [done [rest [Hpkgs [-> ->]]]].
  pose proof (operation_result h SnapPkgs t) as [Hfst Hsnd].
  cbn [run_operation script_of] in Hfst, Hsnd.
  assert (Hruns : map fst (runs (install_snap_pkgs h) t)
                  = map install (map fst done)).
  { change (runs (install_snap_pkgs h) t)
      with (runs (run_operation h SnapPkgs) t).
    rewrite runs_operation. cbn [script_of].
    rewrite (runs_eq (run_script h snap_script) _ _ Hran).
    unfold attempted. rewrite !map_map. reflexivity. }
  split; [apply Permutation_separate|]. split.
  - exists (List.length (map fst done)). rewrite Hruns.
    now apply firstn_map_prefix with (b := rest).
  - intros b Hb. rewrite Hruns, Hpkgs. rewrite Hfst in Hb.
    destruct (fst (run_script h snap_script t)); [|discriminate].
    destruct Hres as [Hrest _]. destruct rest; [|discriminate].
    now rewrite app_nil_r.
Qed.

(** A script without classified steps does not depend on the allow-list. *)
Lemma run_script_unclassified (allowed : list string) (s : list instr) :
  Forall (fun st => classified st = false) (steps s) ->
  forall t, run_script (with_allow_list h allowed) s t = run_script h s t.
Proof.
  induction s as [|[x|st] s IH]; intros Hs t; trivial.
  - cbn [run_script]. apply bind_ext. intros _ u. now apply IH.
  - cbn [steps] in Hs. inversion Hs as [|? ? Hst Hs']; subst.
    cbn [run_script].
    assert (E : run_step (with_allow_list h allowed) st t = run_step h st t).
    { unfold run_step, judged. rewrite Hst. reflexivity. }
    rewrite (bind_eq _ _ _ _ E). apply bind_ext. intros _ u. now apply IH.
Qed.

Lemma install_snap_pkgs_ignores_allow_list (allowed : list string)
    (t : trace) :
  install_snap_pkgs (with_allow_list h allowed) t = install_snap_pkgs h t.
Proof.
  rewrite !install_snap_pkgs_refines. apply bind_eq.
  apply run_script_unclassified. rewrite steps_snap_script.
  apply Forall_map, Forall_forall. reflexivity.
Qed.

(** C8.  [install_snap_pkgs] raises [InstallationError] on any stderr of a
    [snap install] command that is not empty, and the warning classifier has
    no part in it: the outcome is the same under every allow-list, so a
    stderr that [car_apt_warning] empties for an apt command still aborts the
    snap installation. *)
Theorem install_snap_pkgs_raises_on_any_stderr (t : trace) (pkg : string)
    (p : process) :
  In ("snap install  " ++ pkg, p) (runs (install_snap_pkgs h) t) ->
  completes p (default_timeout h) ->
  stderr p <> "" ->
  fst (install_snap_pkgs h t)
  = Raise (InstallationError ("Failed to install " ++ pkg ++ "."))
  /\ forall allowed,
       install_snap_pkgs (with_allow_list h allowed) t
       = install_snap_pkgs h t.
Proof.
  intros Hin Hc Herr. split; [|intros; apply install_snap_pkgs_ignores_allow_list].
  destruct (operation_first_failure h SnapPkgs t _ _ Hin)
    as [st [Hst [Hcmd Hfail]]].
  cbn [script_of run_operation] in *. rewrite steps_snap_script in Hst.
  apply in_map_iff in Hst. destruct Hst as [pkg' [<- _]].
  cbn [cmd snap_step] in Hcmd. apply append_cancel_head in Hcmd. subst pkg'.
  change (InstallationError ("Failed to install " ++ pkg ++ "."))
    with (InstallationError (failmsg (snap_step pkg))).
  rewrite <- (step_exn_completes h (snap_step pkg) p Hc).
  apply Hfail, real_failure_fails.
  now apply real_failure_unclassified.
Qed.

End SnapLoop.

Lemma install_snap_pkgs_order_witness :
  map fst (runs (install_snap_pkgs quiet_host) [])
  = [ "snap install  sublime-text --classic"; "snap install  code --classic";
      "snap install  bitwarden"; "snap install  jdownloader2";
      "snap install  libreoffice"; "snap install  signal-desktop";
      "snap install  spotify"; "snap install  vlc" ].
Proof.
  apply (proj2 (proj2 (install_snap_pkgs_order quiet_host [])) true).
  vm_compute. reflexivity.
Defined.

Lemma install_snap_pkgs_raises_on_any_stderr_witness :
  car_apt_warning
    (host_failing_at "snap install  sublime-text --classic"
       "dpkg-preconfigure: unable to re-open stdin")
    "dpkg-preconfigure: unable to re-open stdin"
  = ""
  /\ fst (install_snap_pkgs
            (host_failing_at "snap install  sublime-text --classic"
               "dpkg-preconfigure: unable to re-open stdin")
            [])
     = Raise (InstallationError "Failed to install sublime-text --classic.").
Proof.
  split; [reflexivity|].
  apply (install_snap_pkgs_raises_on_any_stderr
           (host_failing_at "snap install  sublime-text --classic"
              "dpkg-preconfigure: unable to re-open stdin")
           [] "sublime-text --classic"
           (complains "dpkg-preconfigure: unable to re-open stdin")).
  - vm_compute. left. reflexivity.
  - apply complains_completes.
  - discriminate.
Defined.

(** ** The multi-program sequence *)

Section Sequence.

Variable h : host.

Lemma run_guarded_app (a b : list guarded) (t : trace) :
  run_guarded (a ++ b) t = (run_guarded a ;; run_guarded b) t.
Proof.
  revert t; induction a as [|g a IH]; intros t; [reflexivity|].
  cbn [app run_guarded]. rewrite bind_assoc. apply bind_ext. intros _ u.
  rewrite bind_assoc. apply bind_ext. intros _ v.
  rewrite bind_assoc. apply bind_ext. intros _ w. apply IH.
Qed.

(** The two shapes a guarded call takes in [install_not_ppkd_prog]. *)
Lemma guarded_with_else {B} (g : guarded) (l : list guarded) (K K' : M B)
    (t : trace) :
  (forall u, K u = (run_guarded l ;; K') u) ->
  (print (announce g) ;;
   try_except_else (installer g) InstallationError_or_TimeoutExpired
     (raise (InstallationError (failure g)))
     (print (success g)) ;;
   K) t
  = (run_guarded (g :: l) ;; K') t.
Proof.
  intros HK. cbn [run_guarded]. rewrite !bind_print.
  unfold try_except_else, try_except, bind, raise, print.
  destruct (installer g _) as [[b|e] u].
  - apply HK.
  - destruct (InstallationError_or_TimeoutExpired e); reflexivity.
Qed.

Lemma guarded_then_print {B} (g : guarded) (l : list guarded) (K K' : M B)
    (t : trace) :
  (forall u, K u = (run_guarded l ;; K') u) ->
  (print (announce g) ;;
   try_except (installer g) InstallationError_or_TimeoutExpired
     (raise (InstallationError (failure g))) ;;
   print (success g) ;;
   K) t
  = (run_guarded (g :: l) ;; K') t.
Proof.
  intros HK. cbn [run_guarded]. rewrite !bind_print.
  unfold try_except, bind, raise, print.
  destruct (installer g _) as [[b|e] u].
  - apply HK.
  - destruct (InstallationError_or_TimeoutExpired e); reflexivity.
Qed.

(** [install_not_ppkd_prog] is the run of its six guarded calls. *)
Lemma install_not_ppkd_prog_refines (t : trace) :
  install_not_ppkd_prog h t
  = (run_guarded (not_ppkd_programs h) ;; ret true) t.
Proof.
  unfold install_not_ppkd_prog, not_ppkd_programs.
  apply (guarded_with_else (Guarded _ _ _ _)). intros u1.
  apply (guarded_with_else (Guarded _ _ _ _)). intros u2.
  apply (guarded_then_print (Guarded _ _ _ _)). intros u3.
  apply (guarded_then_print (Guarded _ _ _ _)). intros u4.
  apply (guarded_then_print (Guarded _ _ _ _)). intros u5.
  apply (guarded_then_print (Guarded _ _ _ _)). intros u6.
  reflexivity.
Qed.

(** When a guarded installer raises, the programs before it having been
    installed, [install_not_ppkd_prog] raises at once what the handler makes
    of the exception, and the log ends where the installer stopped. *)
Lemma guarded_raise_aborts_sequence
    (before : list guarded) (g : guarded) (after : list guarded)
    (t t1 t2 : trace) (e : exn) :
  not_ppkd_programs h = (before ++ g :: after)%list ->
  run_guarded before t = (Ret tt, t1) ->
  installer g (t1 ++ [Printed (announce g)])%list = (Raise e, t2) ->
  install_not_ppkd_prog h t = (Raise (reraised g e), t2).
Proof.
  intros Hl Hbefore Hg.
  rewrite install_not_ppkd_prog_refines, Hl.
  rewrite (bind_eq _ _ _ _ (run_guarded_app _ _ _)), bind_assoc.
  unfold bind at 1. rewrite Hbefore.
  cbn [run_guarded]. rewrite bind_assoc, bind_print.
  unfold bind, try_except, raise, reraised. rewrite Hg.
  destruct (InstallationError_or_TimeoutExpired e); reflexivity.
Qed.

End Sequence.

(** C7, refuted as stated.  On a host where only the download of Brave's
    signing key fails, where [install_docker] on its own would succeed,
    [install_not_ppkd_prog] raises and has run that one command: the failure
    of Brave Browser has kept Docker, Fish, Chrome and Poetry from being
    installed. *)
Lemma brave_failure_aborts_later_programs :
  fst (install_not_ppkd_prog brave_key_host [])
  = Raise (InstallationError "Brave browser was not installed")
  /\ commands (snd (install_not_ppkd_prog brave_key_host []))
     = [ "curl -fsSLo /usr/share/keyrings/brave-browser-archive-keyring.gpg https://brave-browser-apt-release.s3.brave.com/brave-browser-archive-keyring.gpg" ]
  /\ fst (install_docker brave_key_host []) = Ret true.
Proof. repeat split; vm_compute; reflexivity. Qed.

(** ** Which commands a statement can run *)

Lemma logs_ret {A} (a : A) : logs (ret a) [].
Proof.
  intros t. exists []. cbn. rewrite app_nil_r.
  split; trivial. split; trivial. now exists [].
Qed.

Lemma logs_print (s : string) : logs (print s) [].
Proof.
  intros t. exists []. cbn. rewrite ran_printed, app_nil_r.
  split; trivial. split; trivial. now exists [].
Qed.

Lemma logs_raise {A} (e : exn) (cmds : list string) :
  logs (@raise A e) cmds.
Proof.
  intros t. exists []. cbn. rewrite app_nil_r.
  split; trivial. split; [now exists cmds | discriminate].
Qed.

Lemma logs_bind {A B} (m : M A) (k : A -> M B) (c1 c2 : list string) :
  logs m c1 -> (forall a, logs (k a) c2) -> logs (bind m k) (c1 ++ c2).
Proof.
  intros Hm Hk t. unfold bind.
  destruct (Hm t) as [new1 [Hran1 [[rest1 Hpre1] Hret1]]].
  destruct (m t) as [[a|e] t1]; cbn [fst snd] in *.
  - destruct (Hk a t1) as [new2 [Hran2 [[rest2 Hpre2] Hret2]]].
    exists (new1 ++ new2)%list. rewrite Hran2, Hran1, <- app_assoc.
    rewrite map_app, (Hret1 a eq_refl). split; trivial. split.
    + exists rest2. now rewrite Hpre2 at 1; rewrite app_assoc.
    + intros b Hb. now rewrite (Hret2 b Hb).
  - exists new1. split; trivial. split; [|discriminate].
    exists (rest1 ++ c2)%list. now rewrite Hpre1 at 1; rewrite app_assoc.
Qed.

Lemma logs_try_except {A} (body : M A) (caught : exn -> bool) (e : exn)
    (cmds : list string) :
  logs body cmds -> logs (try_except body caught (raise e)) cmds.
Proof.
  intros Hm t. unfold try_except, raise.
  destruct (Hm t) as [new [Hran [Hpre Hret]]].
  destruct (body t) as [[a|e'] t1]; cbn [fst snd] in *.
  - exists new. repeat split; trivial.
  - exists new. destruct (caught e'); repeat split; trivial; discriminate.
Qed.

Lemma logs_try_except_else {A B} (body : M A) (caught : exn -> bool)
    (e : exn) (orelse : M B) (c1 c2 : list string) :
  logs body c1 -> logs orelse c2 ->
  logs (try_except_else body caught (raise e) orelse) (c1 ++ c2).
Proof.
  intros Hm Hk t. unfold try_except_else, raise.
  destruct (Hm t) as [new1 [Hran1 [[rest1 Hpre1] Hret1]]].
  destruct (body t) as [[a|e'] t1]; cbn [fst snd] in *.
  - destruct (Hk t1) as [new2 [Hran2 [[rest2 Hpre2] Hret2]]].
    exists (new1 ++ new2)%list. rewrite Hran2, Hran1, <- app_assoc.
    rewrite map_app, (Hret1 a eq_refl). split; trivial. split.
    + exists rest2. now rewrite Hpre2 at 1; rewrite app_assoc.
    + intros b Hb. now rewrite (Hret2 b Hb).
  - exists new1.
    assert (Hpre : exists rest, (c1 ++ c2)%list = (map fst new1 ++ rest)%list).
    { exists (rest1 ++ c2)%list. now rewrite Hpre1 at 1; rewrite app_assoc. }
    destruct (caught e'); repeat split; trivial; discriminate.
Qed.

Lemma logs_run_script (h : host) (s : list instr) :
  logs (run_script h s) (map cmd (steps s)).
Proof.
  intros t.
  destruct (run_script_spec h s t) as [done [Hran [rest [Hsteps Hres]]]].
  exists (attempted done). split; trivial.
  assert (E : map fst (attempted done) = map cmd (map fst done)).
  { unfold attempted. now rewrite !map_map. }
  rewrite E, Hsteps, map_app. split; [now exists (map cmd rest)|].
  intros a Ha. rewrite Ha in Hres. destruct Hres as [-> _].
  now rewrite app_nil_r.
Qed.

Lemma logs_operation (h : host) (op : operation) :
  logs (run_operation h op) (map cmd (steps (script_of h op))).
Proof.
  intros t. destruct (logs_run_script h (script_of h op) t)
    as [new [Hran [Hpre Hret]]].
  destruct (operation_result h op t) as [Hfst Hsnd].
  exists new. rewrite Hsnd. split; trivial. split; trivial.
  intros a Ha. rewrite Hfst in Ha.
  destruct (fst (run_script h (script_of h op) t)) as [[]|e];
    [|discriminate].
  now apply (Hret tt).
Qed.

(** What [install_poetry] returns and logs. *)
Lemma install_poetry_log (h : host) (t : trace) :
  let u := (t ++ [Printed "Executing Poetry's installation script..."])%list in
  let p := shell h u (poetry_cmd h) in
  install_poetry h t
  = if completes_within p (default_timeout h) then
      (Ret true,
       ((u ++ [Ran (poetry_cmd h) p])
        ++ (if truthy (stderr p) then [Printed (stderr p)] else [])
        ++ [Printed "Execution successful."])%list)
    else (Raise TimeoutError, (u ++ [Ran (poetry_cmd h) p])%list).
Proof.
  cbv zeta. unfold install_poetry. cbv zeta. fold (poetry_cmd h).
  rewrite bind_print.
  unfold bind, comm_, comm, when, expr_stmt, print, ret.
  destruct (completes_within _ _); [|reflexivity].
  destruct (truthy _); [|reflexivity].
  now rewrite <- app_assoc.
Qed.

Lemma logs_install_poetry (h : host) :
  logs (install_poetry h) [poetry_cmd h].
Proof.
  intros t. rewrite install_poetry_log. cbv zeta.
  set (u := (t ++ [Printed _])%list).
  exists [(poetry_cmd h, shell h u (poetry_cmd h))].
  destruct (completes_within _ _); cbn [fst snd].
  - split.
    + destruct (truthy _); rewrite !ran_app; cbn [ran]; unfold u;
        now rewrite ran_printed, ?app_nil_r.
    + split; [now exists [] | reflexivity].
  - split; [unfold u; now rewrite ran_ran, ran_printed|].
    split; [now exists [] | discriminate].
Qed.

Lemma logs_eq {A} (m : M A) (c c' : list string) :
  logs m c -> c = c' -> logs m c'.
Proof. now intros H <-. Qed.

(** [install_not_ppkd_prog] runs the commands of Brave Browser, Docker, Fish
    and Chrome, then twice the command of Poetry. *)
Lemma logs_install_not_ppkd_prog (h : host) :
  logs (install_not_ppkd_prog h) (not_ppkd_commands h).
Proof.
  unfold install_not_ppkd_prog. eapply logs_eq.
  - eapply logs_bind; [apply logs_print | intros _].
    eapply logs_bind;
      [ apply logs_try_except_else;
        [apply (logs_operation h BraveBrowser) | apply logs_print]
      | intros _].
    eapply logs_bind; [apply logs_print | intros _].
    eapply logs_bind;
      [ apply logs_try_except_else;
        [apply (logs_operation h Docker) | apply logs_print]
      | intros _].
    eapply logs_bind; [apply logs_print | intros _].
    eapply logs_bind;
      [apply logs_try_except, (logs_operation h FishShell) | intros _].
    eapply logs_bind; [apply logs_print | intros _].
    eapply logs_bind; [apply logs_print | intros _].
    eapply logs_bind;
      [apply logs_try_except, (logs_operation h GoogleChrome) | intros _].
    eapply logs_bind; [apply logs_print | intros _].
    eapply logs_bind; [apply logs_print | intros _].
    eapply logs_bind;
      [apply logs_try_except, logs_install_poetry | intros _].
    eapply logs_bind; [apply logs_print | intros _].
    eapply logs_bind; [apply logs_print | intros _].
    eapply logs_bind;
      [apply logs_try_except, logs_install_poetry | intros _].
    eapply logs_bind; [apply logs_print | intros _].
    apply logs_ret.
  - unfold not_ppkd_commands. cbn [script_of app].
    rewrite !app_nil_r. reflexivity.
Qed.

(** The first step of a script is always attempted. *)
Lemma first_step_runs (h : host) (s : list instr) (st : step)
    (more : list step) (t : trace) :
  steps s = st :: more ->
  exists p rest, runs (run_script h s) t = (cmd st, p) :: rest.
Proof.
  intros Hs.
  destruct (run_script_spec h s t) as [done [Hran [rest [Hsteps Hres]]]].
  rewrite (runs_eq _ _ _ Hran). rewrite Hs in Hsteps.
  destruct done as [|[st' p] done].
  - exfalso. cbn [map app] in Hsteps. subst rest.
    destruct (fst (run_script h s t)).
    + destruct Hres as [E _]. discriminate E.
    + destruct Hres as [pre [st0 [p0 [E _]]]]. now destruct pre.
  - cbn [map fst app] in Hsteps. injection Hsteps as <- _.
    now exists p, (attempted done).
Qed.

(** No command of [install_qbittorrent] is among those of the six guarded
    calls. *)
Lemma qbittorrent_commands_absent (h : host) (c : string) :
  In c (map cmd (steps qbittorrent_script)) ->
  ~ In c (not_ppkd_commands h).
Proof.
  intros Hc Hin. cbn in Hc. destruct Hc as [<-|[<-|[]]];
    cbn in Hin;
    repeat (destruct Hin as [E|Hin]; [discriminate E|]);
    exact Hin.
Qed.

Section Qbittorrent.

Variable h : host.

(** When [install_not_ppkd_prog] returns, the call it announces as the
    installation of qbittorrent has run the command of Poetry, and no
    command after it. *)
Lemma qbittorrent_call_runs_poetry (t : trace) (b : bool) :
  fst (install_not_ppkd_prog h t) = Ret b ->
  exists log p tail,
    snd (install_not_ppkd_prog h t)
    = (log
       ++ [ Printed "Installing qbittorrent...";
            Printed "Executing Poetry's installation script...";
            Ran (poetry_cmd h) p ]
       ++ tail)%list
    /\ ran tail = [].
Proof.
  rewrite install_not_ppkd_prog_refines.
  change (not_ppkd_programs h)
    with (firstn 5 (not_ppkd_programs h) ++ skipn 5 (not_ppkd_programs h))%list.
  rewrite (bind_eq _ _ _ _ (run_guarded_app _ _ _)), bind_assoc.
  unfold bind at 1 3.
  destruct (run_guarded (firstn 5 (not_ppkd_programs h)) t) as [[[]|e] log];
    [|discriminate].
  cbn [skipn not_ppkd_programs run_guarded announce installer failure success].
  rewrite !bind_assoc, !bind_print.
  unfold bind, try_except, print, ret. rewrite install_poetry_log.
  cbv zeta.
  set (p := shell h _ (poetry_cmd h)).
  destruct (completes_within p (default_timeout h));
    [|cbn; discriminate].
  intros _. exists log, p.
  exists ((if truthy (stderr p) then [Printed (stderr p)] else [])
          ++ [ Printed "Execution successful.";
               Printed "Successfully installed qbittorrent." ])%list.
  split.
  - cbn [snd]. rewrite <- !app_assoc. reflexivity.
  - destruct (truthy (stderr p)); reflexivity.
Qed.

(** C9.  [install_not_ppkd_prog] never invokes [install_qbittorrent].  No
    run of it executes the command that adds the qbittorrent repository or
    the one that installs the package, the first of which every call of
    [install_qbittorrent] executes; and in a run that returns, the final
    call, announced as the installation of qbittorrent, has executed the
    command of [install_poetry] once more. *)
Theorem install_not_ppkd_prog_never_installs_qbittorrent (t : trace) :
  ~ In "add-apt-repository ppa:qbittorrent-team/qbittorrent-stable -y"
      (map fst (runs (install_not_ppkd_prog h) t))
  /\ ~ In "apt update -y && apt install qbittorrent -y"
         (map fst (runs (install_not_ppkd_prog h) t))
  /\ (forall u, exists p rest,
        runs (install_qbittorrent h) u
        = ("add-apt-repository ppa:qbittorrent-team/qbittorrent-stable -y", p)
          :: rest)
  /\ (forall b,
        fst (install_not_ppkd_prog h t) = Ret b ->
        exists log p tail,
          snd (install_not_ppkd_prog h t)
          = (log
             ++ [ Printed "Installing qbittorrent...";
                  Printed "Executing Poetry's installation script...";
                  Ran (poetry_cmd h) p ]
             ++ tail)%list
          /\ ran tail = []).
Proof.
  destruct (logs_install_not_ppkd_prog h t) as [new [Hran [[rest Hpre] _]]].
  rewrite (runs_eq _ _ _ Hran).
  assert (Hno : forall c, In c (map cmd (steps qbittorrent_script)) ->
                  ~ In c (map fst new)).
  { intros c Hc Hin. apply (qbittorrent_commands_absent h c Hc).
    rewrite Hpre. apply in_or_app. now left. }
  split; [apply Hno; now left|].
  split; [apply Hno; right; now left|].
  split; [|apply qbittorrent_call_runs_poetry].
  intros u.
  change (runs (install_qbittorrent h) u)
    with (runs (run_operation h Qbittorrent) u).
  rewrite runs_operation.
  apply (first_step_runs h qbittorrent_script
           (Step "add-apt-repository ppa:qbittorrent-team/qbittorrent-stable -y"
              false true "Failed to add qbittorrent ppa.")
           (tl (steps qbittorrent_script))).
  reflexivity.
Qed.

End Qbittorrent.

Lemma install_not_ppkd_prog_never_installs_qbittorrent_witness :
  exists log p tail,
    snd (install_not_ppkd_prog quiet_host [])
    = (log
       ++ [ Printed "Installing qbittorrent...";
            Printed "Executing Poetry's installation script...";
            Ran (poetry_cmd quiet_host) p ]
       ++ tail)%list
    /\ ran tail = [].
Proof.
  apply (proj2 (proj2 (proj2
           (install_not_ppkd_prog_never_installs_qbittorrent quiet_host [])))
           true).
  vm_compute. reflexivity.
Defined.

(** ** Failures inside the multi-program sequence *)

Lemma grows_of_logs {A} (m : M A) (cmds : list string) :
  logs m cmds -> grows m.
Proof.
  intros H t. destruct (H t) as [new [Hran _]]. now exists new.
Qed.

(** Every command run by a guarded sequence was run by one of its
    installers, and an installer that raised ended the sequence with the
    exception its handler makes of it. *)
Lemma run_guarded_blame (l : list guarded) :
  Forall (fun g => grows (installer g)) l ->
  forall t, exists new,
    ran (snd (run_guarded l t)) = (ran t ++ new)%list
    /\ forall c p, In (c, p) new ->
         exists g t',
           In g l /\ In (c, p) (runs (installer g) t')
           /\ forall e, fst (installer g t') = Raise e ->
                fst (run_guarded l t) = Raise (reraised g e).
Proof.
  induction 1 as [|g l Hg Hl IH]; intros t.
  - exists []. cbn. rewrite app_nil_r. split; trivial. intros c p [].
  - cbn [run_guarded]. rewrite bind_print.
    set (t0 := (t ++ [Printed (announce g)])%list).
    unfold bind, try_except, raise, print, reraised.
    destruct (Hg t0) as [new1 H1].
    assert (Hruns : runs (installer g) t0 = new1) by now apply runs_eq.
    assert (Ht0 : ran t0 = ran t) by apply ran_printed.
    destruct (installer g t0) as [[b|e] t1] eqn:E; cbn [fst snd] in *.
    + destruct (IH (t1 ++ [Printed (success g)])%list) as [new2 [H2 Hb2]].
      exists (new1 ++ new2)%list. split.
      * now rewrite H2, ran_printed, H1, Ht0, app_assoc.
      * intros c p Hin. apply in_app_or in Hin. destruct Hin as [Hin|Hin].
        -- exists g, t0. split; [now left|]. split; [now rewrite Hruns|].
           rewrite E. discriminate.
        -- destruct (Hb2 c p Hin) as [g' [t' [Hg' [Hin' He]]]].
           exists g', t'. split; [now right|]. now split.
    + exists new1. split.
      * destruct (InstallationError_or_TimeoutExpired e); cbn [snd];
          now rewrite H1, Ht0.
      * intros c p Hin. exists g, t0. split; [now left|].
        split; [now rewrite Hruns|].
        rewrite E. intros e' He'. injection He' as <-.
        destruct (InstallationError_or_TimeoutExpired e); reflexivity.
Qed.

Section SequenceFailures.

Variable h : host.

Lemma not_ppkd_programs_grow :
  Forall (fun g => grows (installer g)) (not_ppkd_programs h).
Proof.
  unfold not_ppkd_programs. repeat constructor; cbn [installer].
  - apply (grows_of_logs _ _ (logs_operation h BraveBrowser)).
  - apply (grows_of_logs _ _ (logs_operation h Docker)).
  - apply (grows_of_logs _ _ (logs_operation h FishShell)).
  - apply (grows_of_logs _ _ (logs_operation h GoogleChrome)).
  - apply (grows_of_logs _ _ (logs_install_poetry h)).
  - apply (grows_of_logs _ _ (logs_install_poetry h)).
Qed.

Lemma install_not_ppkd_prog_blame (t : trace) (c : string) (p : process) :
  In (c, p) (runs (install_not_ppkd_prog h) t) ->
  exists g t',
    In g (not_ppkd_programs h) /\ In (c, p) (runs (installer g) t')
    /\ forall e, fst (installer g t') = Raise e ->
         fst (install_not_ppkd_prog h t) = Raise (reraised g e).
Proof.
  destruct (run_guarded_blame _ not_ppkd_programs_grow t)
    as [new [Hran Hblame]].
  assert (E : snd (install_not_ppkd_prog h t)
              = snd (run_guarded (not_ppkd_programs h) t)
              /\ forall e, fst (run_guarded (not_ppkd_programs h) t) = Raise e ->
                   fst (install_not_ppkd_prog h t) = Raise e).
  { rewrite install_not_ppkd_prog_refines. unfold bind, ret.
    destruct (run_guarded (not_ppkd_programs h) t) as [[[]|e] u];
      split; trivial; cbn; congruence. }
  destruct E as [Esnd Efst].
  unfold runs. rewrite Esnd, Hran, skipn_length_app. intros Hin.
  destruct (Hblame c p Hin) as [g [t' [Hg [Hin' He]]]].
  exists g, t'. split; trivial. split; trivial.
  intros e Hraise. apply Efst. now apply He.
Qed.

(** A real failure at a step of Brave Browser, Docker, Fish or Chrome,
    inside [install_not_ppkd_prog], raises the [InstallationError] of that
    program's handler. *)
Lemma guarded_failure_raises (op : operation) (msg : string) (g : guarded)
    (t t' : trace) (c : string) (p : process) :
  installer g = run_operation h op ->
  failure g = msg ->
  In (c, p) (runs (installer g) t') ->
  (forall e, fst (installer g t') = Raise e ->
     fst (install_not_ppkd_prog h t) = Raise (reraised g e)) ->
  exists st, In st (steps (script_of h op)) /\ cmd st = c /\
    (completes p (default_timeout h) -> real_failure h st p = true ->
     fst (install_not_ppkd_prog h t) = Raise (InstallationError msg)).
Proof.
  intros Hop Hmsg Hin He. rewrite Hop in Hin, He.
  destruct (operation_first_failure h op t' c p Hin) as [st [Hst [Hc Hfail]]].
  exists st. split; [exact Hst|]. split; [exact Hc|].
  intros Hcomp Hreal.
  destruct (Hfail (real_failure_fails h st p Hreal)) as [Hraise _].
  rewrite (step_exn_completes h st p Hcomp) in Hraise.
  rewrite (He _ Hraise). unfold reraised. cbn. now rewrite Hmsg.
Qed.

End SequenceFailures.

Lemma install_poetry_runs_its_command (h : host) (t : trace) (c : string)
    (p : process) :
  In (c, p) (runs (install_poetry h) t) -> c = poetry_cmd h.
Proof.
  destruct (logs_install_poetry h t) as [new [Hran [[rest Hpre] _]]].
  rewrite (runs_eq _ _ _ Hran). intros Hin.
  assert (Hc : In c (map fst new ++ rest)).
  { apply in_or_app. left. apply in_map_iff. now exists (c, p). }
  rewrite <- Hpre in Hc. destruct Hc as [<-|[]]. reflexivity.
Qed.

(** C5, refuted as stated.  On a host where removing the downloads
    directory writes to its stderr, the step is a real failure, and
    [cleanup] signals it by returning [False]: nothing is raised. *)
Lemma cleanup_signals_failure_by_False :
  runs (cleanup (host_failing_at "rm -r /home/user/inst_downloads"
                   "rm: cannot remove: No such file or directory")) []
  = [ ("rm -r /home/user/inst_downloads",
       complains "rm: cannot remove: No such file or directory") ]
  /\ cleanup (host_failing_at "rm -r /home/user/inst_downloads"
                "rm: cannot remove: No such file or directory") []
     = (Ret false,
        [ Ran "rm -r /home/user/inst_downloads"
            (complains "rm: cannot remove: No such file or directory") ]).
Proof. split; vm_compute; reflexivity. Qed.

(** C5, amended.  For [pre_install], [install_apt_pkgs],
    [install_snap_pkgs], [install_brave_browser], [install_docker],
    [install_fish_shell], [install_google_chrome] and [install_qbittorrent],
    a real failure at any step raises an [InstallationError] whose message
    names what failed; inside [install_not_ppkd_prog], a real failure at any
    step of Brave Browser, Docker, Fish or Chrome raises the
    [InstallationError] that names that program, the other commands it runs
    being the command of Poetry; [cleanup] signals a real failure of either
    of its commands by returning [False], and raises no
    [InstallationError]. *)
Theorem real_failure_raises_except_in_cleanup (h : host) :
  (forall op t c p,
     In (c, p) (runs (run_operation h op) t) ->
     exists st, In st (steps (script_of h op)) /\ cmd st = c /\
       (completes p (default_timeout h) -> real_failure h st p = true ->
        fst (run_operation h op t) = Raise (InstallationError (failmsg st))
        /\ mentions (subject op st) (failmsg st) = true))
  /\ (forall t c p,
        In (c, p) (runs (install_not_ppkd_prog h) t) ->
        c = poetry_cmd h
        \/ exists op msg st,
             In (op, msg) guarded_operations
             /\ In st (steps (script_of h op)) /\ cmd st = c
             /\ (completes p (default_timeout h) ->
                 real_failure h st p = true ->
                 fst (install_not_ppkd_prog h t)
                 = Raise (InstallationError msg)
                 /\ mentions (subject op st) msg = true))
  /\ (forall t c p,
        In (c, p) (runs (cleanup h) t) ->
        exists st, In st (cleanup_steps h) /\ cmd st = c /\
          (completes p (default_timeout h) -> real_failure h st p = true ->
           fst (cleanup h t) = Ret false))
  /\ (forall t,
        fst (cleanup h t) = Ret true \/ fst (cleanup h t) = Ret false
        \/ fst (cleanup h t) = Raise TimeoutError).
Proof.
  split; [|split; [|split]].
  - intros op t c p Hin.
    destruct (operation_first_failure h op t c p Hin) as [st [Hst [Hc Hfail]]].
    exists st. split; [exact Hst|]. split; [exact Hc|].
    intros Hcomp Hreal. split.
    + rewrite <- (step_exn_completes h st p Hcomp).
      apply Hfail. now apply real_failure_fails.
    + now apply failmsg_names_subject with (h := h).
  - intros t c p Hin.
    destruct (install_not_ppkd_prog_blame h t c p Hin)
      as [g [t' [Hg [Hin' He]]]].
    assert (Hscript : forall op msg,
              In (op, msg) guarded_operations ->
              installer g = run_operation h op -> failure g = msg ->
              mentions (subject op (Step "" false false "")) msg = true ->
              exists op msg st,
                In (op, msg) guarded_operations
                /\ In st (steps (script_of h op)) /\ cmd st = c
                /\ (completes p (default_timeout h) ->
                    real_failure h st p = true ->
                    fst (install_not_ppkd_prog h t)
                    = Raise (InstallationError msg)
                    /\ mentions (subject op st) msg = true)).
    { intros op msg Hop Hi Hf Hm.
      destruct (guarded_failure_raises h op msg g t t' c p Hi Hf Hin' He)
        as [st [Hst [Hc Hr]]].
      exists op, msg, st. repeat split; trivial.
      - now apply Hr.
      - destruct Hop as [E|[E|[E|[E|[]]]]]; injection E as <- <-;
          exact Hm. }
    destruct Hg as [<-|[<-|[<-|[<-|[<-|[<-|[]]]]]]]; cbn [installer] in *.
    + right.
      apply (Hscript BraveBrowser "Brave browser was not installed");
        [simpl; tauto | reflexivity ..].
    + right.
      apply (Hscript Docker "Docker was not installed.");
        [simpl; tauto | reflexivity ..].
    + right.
      apply (Hscript FishShell "Fish shell was not installed.");
        [simpl; tauto | reflexivity ..].
    + right.
      apply (Hscript GoogleChrome "Google Chrome was not installed.");
        [simpl; tauto | reflexivity ..].
    + left. now apply install_poetry_runs_its_command with (t := t') (p := p).
    + left. now apply install_poetry_runs_its_command with (t := t') (p := p).
  - apply cleanup_returns_False.
  - apply cleanup_never_raises_InstallationError.
Qed.

Lemma real_failure_raises_except_in_cleanup_witness :
  fst (run_operation
         (host_failing_at "apt-add-repository ppa:fish-shell/release-3 -y"
            "Cannot add PPA")
         FishShell [])
  = Raise (InstallationError "Failed to add Fish's ppa.").
Proof.
  destruct (proj1 (real_failure_raises_except_in_cleanup
                     (host_failing_at
                        "apt-add-repository ppa:fish-shell/release-3 -y"
                        "Cannot add PPA"))
              FishShell [] "apt-add-repository ppa:fish-shell/release-3 -y"
              (complains "Cannot add PPA"))
    as [st [Hst [Hc H]]].
  - vm_compute. left. reflexivity.
  - destruct Hst as [<-|[<-|[]]].
    + apply H.
      * apply complains_completes.
      * reflexivity.
    + discriminate Hc.
Defined.

(** ** The first failure in the multi-program sequence *)

(** Every command run by a guarded sequence was run by one of its
    installers; when that installer raised, the sequence raised what its
    handler makes of the exception and its run ends with the installer's. *)
Lemma run_guarded_last (l : list guarded) :
  Forall (fun g => grows (installer g)) l ->
  forall t, exists new,
    ran (snd (run_guarded l t)) = (ran t ++ new)%list
    /\ forall c p, In (c, p) new ->
         exists g t',
           In g l /\ In (c, p) (runs (installer g) t')
           /\ forall e, fst (installer g t') = Raise e ->
                fst (run_guarded l t) = Raise (reraised g e)
                /\ exists before,
                     new = (before ++ runs (installer g) t')%list.
Proof.
  induction 1 as [|g l Hg Hl IH]; intros t.
  - exists []. cbn. rewrite app_nil_r. split; trivial. intros c p [].
  - cbn [run_guarded]. rewrite bind_print.
    set (t0 := (t ++ [Printed (announce g)])%list).
    unfold bind, try_except, raise, print, reraised.
    destruct (Hg t0) as [new1 H1].
    assert (Hruns : runs (installer g) t0 = new1) by now apply runs_eq.
    assert (Ht0 : ran t0 = ran t) by apply ran_printed.
    destruct (installer g t0) as [[b|e] t1] eqn:E; cbn [fst snd] in *.
    + destruct (IH (t1 ++ [Printed (success g)])%list) as [new2 [H2 Hb2]].
      exists (new1 ++ new2)%list. split.
      * now rewrite H2, ran_printed, H1, Ht0, app_assoc.
      * intros c p Hin. apply in_app_or in Hin. destruct Hin as [Hin|Hin].
        -- exists g, t0. split; [now left|]. split; [now rewrite Hruns|].
           rewrite E. discriminate.
        -- destruct (Hb2 c p Hin) as [g' [t' [Hg' [Hin' He]]]].
           exists g', t'. split; [now right|]. split; trivial.
           intros e He'. destruct (He e He') as [Hraise [before Hbefore]].
           split; trivial. exists (new1 ++ before)%list.
           now rewrite Hbefore, app_assoc.
    + exists new1. split.
      * destruct (InstallationError_or_TimeoutExpired e); cbn [snd];
          now rewrite H1, Ht0.
      * intros c p Hin. exists g, t0. split; [now left|].
        split; [now rewrite Hruns|].
        rewrite E. intros e' He'. injection He' as <-. split.
        -- destruct (InstallationError_or_TimeoutExpired e); reflexivity.
        -- exists []. now rewrite Hruns.
Qed.

Section FirstFailure.

Variable h : host.

Lemma install_not_ppkd_prog_last (t : trace) (c : string) (p : process) :
  In (c, p) (runs (install_not_ppkd_prog h) t) ->
  exists g t',
    In g (not_ppkd_programs h) /\ In (c, p) (runs (installer g) t')
    /\ forall e, fst (installer g t') = Raise e ->
         fst (install_not_ppkd_prog h t) = Raise (reraised g e)
         /\ exists before,
              runs (install_not_ppkd_prog h) t
              = (before ++ runs (installer g) t')%list.
Proof.
  destruct (run_guarded_last _ (not_ppkd_programs_grow h) t)
    as [new [Hran Hlast]].
  assert (E : snd (install_not_ppkd_prog h t)
              = snd (run_guarded (not_ppkd_programs h) t)
              /\ forall e, fst (run_guarded (not_ppkd_programs h) t) = Raise e ->
                   fst (install_not_ppkd_prog h t) = Raise e).
  { rewrite install_not_ppkd_prog_refines. unfold bind, ret.
    destruct (run_guarded (not_ppkd_programs h) t) as [[[]|e] u];
      split; trivial; cbn; congruence. }
  destruct E as [Esnd Efst].
  assert (Hruns : runs (install_not_ppkd_prog h) t = new).
  { unfold runs. now rewrite Esnd, Hran, skipn_length_app. }
  rewrite Hruns. intros Hin.
  destruct (Hlast c p Hin) as [g [t' [Hg [Hin' He]]]].
  exists g, t'. split; trivial. split; trivial.
  intros e Hraise. destruct (He e Hraise) as [Hr Hb].
  split; [now apply Efst | exact Hb].
Qed.

(** A real failure at a step of a guarded installer that is the run of a
    script ends the whole sequence. *)
Lemma guarded_failure_is_last (op : operation) (msg : string) (g : guarded)
    (t t' : trace) (c : string) (p : process) :
  installer g = run_operation h op ->
  failure g = msg ->
  In (c, p) (runs (installer g) t') ->
  (forall e, fst (installer g t') = Raise e ->
     fst (install_not_ppkd_prog h t) = Raise (reraised g e)
     /\ exists before,
          runs (install_not_ppkd_prog h) t
          = (before ++ runs (installer g) t')%list) ->
  exists st, In st (steps (script_of h op)) /\ cmd st = c /\
    (completes p (default_timeout h) -> real_failure h st p = true ->
     fst (install_not_ppkd_prog h t) = Raise (InstallationError msg)
     /\ exists before,
          runs (install_not_ppkd_prog h) t = (before ++ [(c, p)])%list).
Proof.
  intros Hop Hmsg Hin He. rewrite Hop in Hin, He.
  destruct (operation_first_failure h op t' c p Hin) as [st [Hst [Hc Hfail]]].
  exists st. split; [exact Hst|]. split; [exact Hc|].
  intros Hcomp Hreal.
  destruct (Hfail (real_failure_fails h st p Hreal))
    as [Hraise [before' Hlast]].
  rewrite (step_exn_completes h st p Hcomp) in Hraise.
  destruct (He _ Hraise) as [Hr [before Hb]]. split.
  - rewrite Hr. unfold reraised. cbn. now rewrite Hmsg.
  - exists (before ++ before')%list. now rewrite Hb, Hlast, app_assoc.
Qed.

(** C7, amended.  When one of the installers that raise on a failure, Brave
    Browser, Docker, Fish or Chrome, has a real failure at any of its steps
    inside [install_not_ppkd_prog], the failure aborts that installer's own
    sequence and the rest of the multi-program sequence with it:
    [install_not_ppkd_prog] raises the [InstallationError] naming that
    program, and the failing command is the last command of the whole run, so
    none of the later installers is run.  More generally, whenever a guarded
    installer raises, the programs before it having been installed,
    [install_not_ppkd_prog] raises at once, an [InstallationError] naming the
    program when the installer raised [InstallationError] or
    [TimeoutExpired], the installer's own exception otherwise, and the log
    ends where the installer stopped.  What a run does when the script of
    Poetry fails, which [install_poetry] does not raise, is left out. *)
Theorem install_not_ppkd_prog_aborts_on_first_failure :
  (forall t c p,
     In (c, p) (runs (install_not_ppkd_prog h) t) ->
     c = poetry_cmd h
     \/ exists op msg st,
          In (op, msg) guarded_operations
          /\ In st (steps (script_of h op)) /\ cmd st = c
          /\ (completes p (default_timeout h) ->
              real_failure h st p = true ->
              fst (install_not_ppkd_prog h t)
              = Raise (InstallationError msg)
              /\ exists before,
                   runs (install_not_ppkd_prog h) t
                   = (before ++ [(c, p)])%list))
  /\ (forall before g after t t1 t2 e,
        not_ppkd_programs h = (before ++ g :: after)%list ->
        run_guarded before t = (Ret tt, t1) ->
        installer g (t1 ++ [Printed (announce g)])%list = (Raise e, t2) ->
        install_not_ppkd_prog h t = (Raise (reraised g e), t2)).
Proof.
  split; [|intros; now apply guarded_raise_aborts_sequence
                         with (before := before) (after := after) (t1 := t1)].
  intros t c p Hin.
  destruct (install_not_ppkd_prog_last t c p Hin) as [g [t' [Hg [Hin' He]]]].
  assert (Hscript : forall op msg,
            In (op, msg) guarded_operations ->
            installer g = run_operation h op -> failure g = msg ->
            exists op msg st,
              In (op, msg) guarded_operations
              /\ In st (steps (script_of h op)) /\ cmd st = c
              /\ (completes p (default_timeout h) ->
                  real_failure h st p = true ->
                  fst (install_not_ppkd_prog h t)
                  = Raise (InstallationError msg)
                  /\ exists before,
                       runs (install_not_ppkd_prog h) t
                       = (before ++ [(c, p)])%list)).
  { intros op msg Hop Hi Hf.
    destruct (guarded_failure_is_last op msg g t t' c p Hi Hf Hin' He)
      as [st [Hst [Hc Hr]]].
    exists op, msg, st. repeat split; trivial; now apply Hr. }
  destruct Hg as [<-|[<-|[<-|[<-|[<-|[<-|[]]]]]]]; cbn [installer] in *.
  - right.
    apply (Hscript BraveBrowser "Brave browser was not installed");
      [simpl; tauto | reflexivity ..].
  - right.
    apply (Hscript Docker "Docker was not installed.");
      [simpl; tauto | reflexivity ..].
  - right.
    apply (Hscript FishShell "Fish shell was not installed.");
      [simpl; tauto | reflexivity ..].
  - right.
    apply (Hscript GoogleChrome "Google Chrome was not installed.");
      [simpl; tauto | reflexivity ..].
  - left. now apply install_poetry_runs_its_command with (t := t') (p := p).
  - left. now apply install_poetry_runs_its_command with (t := t') (p := p).
Qed.

End FirstFailure.

Lemma install_not_ppkd_prog_aborts_on_first_failure_witness :
  fst (install_not_ppkd_prog docker_key_host [])
  = Raise (InstallationError "Docker was not installed.")
  /\ exists before,
       runs (install_not_ppkd_prog docker_key_host) []
       = (before
          ++ [ ("curl -fsSL https://download.docker.com/linux/ubuntu/gpg | gpg --dearmor -o /usr/share/keyrings/docker-archive-keyring.gpg",
                complains "gpg: no valid OpenPGP data found.") ])%list.
Proof.
  destruct (proj1 (install_not_ppkd_prog_aborts_on_first_failure
                     docker_key_host)
              []
              "curl -fsSL https://download.docker.com/linux/ubuntu/gpg | gpg --dearmor -o /usr/share/keyrings/docker-archive-keyring.gpg"
              (complains "gpg: no valid OpenPGP data found."))
    as [Hc|[op [msg [st [Hop [Hst [Hc H]]]]]]].
  - vm_compute. do 3 right. left. reflexivity.
  - vm_compute in Hc. discriminate Hc.
  - assert (Hreal : real_failure docker_key_host st
                      (complains "gpg: no valid OpenPGP data found.")
                    = true).
    { unfold real_failure, judged.
      destruct (classified st); [|reflexivity].
      vm_compute. reflexivity. }
    destruct (H (complains_completes _) Hreal) as [Hraise Hlast].
    split; [|exact Hlast].
    rewrite Hraise. f_equal. f_equal.
    destruct Hop as [E|[E|[E|[E|[]]]]]; injection E as <- <-;
      cbn in Hst;
      repeat (destruct Hst as [<-|Hst]; [try discriminate Hc|]);
      try (destruct Hst); reflexivity.
Defined.

(** * Further properties of [installers.py] *)

(** ** The operations that raise *)

Lemma prefix_firstn {A} (l a rest : list A) :
  l = (a ++ rest)%list -> a = firstn (List.length a) l.
Proof.
  intros ->. now rewrite firstn_app, firstn_all, Nat.sub_diag, app_nil_r.
Qed.

Lemma run_script_returns (h : host) (s : list instr) :
  (forall u st, In st (steps s) -> passes h st (shell h u (cmd st)) = true) ->
  forall t, fst (run_script h s t) = Ret tt.
Proof.
  induction s as [|[x|st] s IH]; intros Hall t.
  - reflexivity.
  - cbn [run_script]. rewrite bind_print. now apply IH.
  - cbn [run_script]. unfold bind.
    pose proof (run_step_spec h st t) as Hst. cbv zeta in Hst.
    rewrite (Hall t st (or_introl eq_refl)) in Hst. rewrite Hst.
    apply IH. intros u st' Hin. apply Hall. now right.
Qed.

(** X1.  In [pre_install] and the seven installers that raise, a command
    that completed with a real failure is the last command of the run: the
    operation raises the [InstallationError] of that step and runs nothing
    after it. *)
Theorem real_failure_is_last_command (h : host) (op : operation) (t : trace)
    (c : string) (p : process) :
  In (c, p) (runs (run_operation h op) t) ->
  completes p (default_timeout h) ->
  exists st, In st (steps (script_of h op)) /\ cmd st = c /\
    (real_failure h st p = true ->
     fst (run_operation h op t) = Raise (InstallationError (failmsg st))
     /\ exists before,
          runs (run_operation h op) t = (before ++ [(c, p)])%list).
Proof.
  intros Hin Hc.
  destruct (operation_first_failure h op t c p Hin) as [st [Hst [Hcmd Hfail]]].
  exists st. split; [exact Hst|]. split; [exact Hcmd|].
  intros Hreal.
  destruct (Hfail (real_failure_fails h st p Hreal)) as [Hraise Hlast].
  split; [|exact Hlast].
  now rewrite Hraise, (step_exn_completes h st p Hc).
Qed.

Lemma real_failure_is_last_command_witness :
  fst (install_qbittorrent qbittorrent_missing_host [])
  = Raise (InstallationError "Failed to install qbittorrent.")
  /\ exists before,
       runs (install_qbittorrent qbittorrent_missing_host) []
       = (before
          ++ [ ("apt update -y && apt install qbittorrent -y",
                complains "E: Unable to locate package qbittorrent") ])%list.
Proof.
  destruct (real_failure_is_last_command qbittorrent_missing_host Qbittorrent
              [] "apt update -y && apt install qbittorrent -y"
              (complains "E: Unable to locate package qbittorrent"))
    as [st [Hst [Hc H]]].
  - vm_compute. right. left. reflexivity.
  - apply complains_completes.
  - destruct Hst as [<-|[<-|[]]].
    + discriminate Hc.
    + apply H. reflexivity.
Defined.

Lemma steps_pass_returns_True (h : host) (op : operation)
    (t : trace) :
  (forall u st,
     In st (steps (script_of h op)) ->
     passes h st (shell h u (cmd st)) = true) ->
  fst (run_operation h op t) = Ret true.
Proof.
  intros Hall. rewrite (proj1 (operation_result h op t)).
  now rewrite (run_script_returns h _ Hall t).
Qed.

(** X2.  An operation all of whose steps pass on the host (each process
    completes in time, with a stderr that is empty or, where the step
    classifies it, benign) returns [True], having run every command of its
    script once, in order. *)
Theorem operation_returns_True_when_steps_pass (h : host) (op : operation)
    (t : trace) :
  (forall u st,
     In st (steps (script_of h op)) ->
     passes h st (shell h u (cmd st)) = true) ->
  fst (run_operation h op t) = Ret true
  /\ map fst (runs (run_operation h op) t) = commands_of h op.
Proof.
  intros Hall.
  assert (Hret : fst (run_operation h op t) = Ret true)
    by now apply steps_pass_returns_True.
  split; [exact Hret|].
  destruct (logs_operation h op t) as [new [Hran [_ Hall']]].
  rewrite (runs_eq _ _ _ Hran). exact (Hall' true Hret).
Qed.

Lemma operation_returns_True_when_steps_pass_witness :
  fst (install_docker quiet_host []) = Ret true
  /\ map fst (runs (install_docker quiet_host) [])
     = [ "curl -fsSL https://download.docker.com/linux/ubuntu/gpg | gpg --dearmor -o /usr/share/keyrings/docker-archive-keyring.gpg";
         String.concat dquote
           [ "echo ";
             "deb [arch=$(dpkg --print-architecture) signed-by=/usr/share/keyrings/docker-archive-keyring.gpg] https://download.docker.com/linux/ubuntu $(lsb_release -cs) stable";
             " | tee /etc/apt/sources.list.d/docker.list > /dev/null" ];
         "apt update -y";
         "apt install -y docker-ce";
         "apt install -y docker-ce-cli";
         "apt install -y containerd.io";
         "usermod -aG docker $USER" ].
Proof.
  apply (operation_returns_True_when_steps_pass quiet_host Docker []).
  intros u st _. reflexivity.
Defined.

(** X3.  Whatever the host does, the commands an operation runs are an
    initial segment of the commands of its script: none is run out of order,
    twice, or from outside the script. *)
Theorem commands_follow_the_script (h : host) (op : operation) (t : trace) :
  exists n,
    map fst (runs (run_operation h op) t) = firstn n (commands_of h op).
Proof.
  destruct (logs_operation h op t) as [new [Hran [[rest Hpre] _]]].
  rewrite (runs_eq _ _ _ Hran).
  exists (List.length (map fst new)). now apply prefix_firstn with (rest := rest).
Qed.

(** X4.  An [InstallationError] is raised by an operation only upon a real
    failure: the last command it ran completed in time with a stderr that is
    not empty and that, where the step classifies it, the classifier did not
    empty; the message is that step's. *)
Theorem InstallationError_only_on_real_failure (h : host) (op : operation)
    (t : trace) (msg : string) :
  fst (run_operation h op t) = Raise (InstallationError msg) ->
  exists before st p,
    runs (run_operation h op) t = (before ++ [(cmd st, p)])%list
    /\ In st (steps (script_of h op))
    /\ failmsg st = msg
    /\ completes p (default_timeout h)
    /\ stderr p <> ""
    /\ (classified st = true -> car_apt_warning h (stderr p) <> "").
Proof.
  intros Hraise.
  destruct (run_script_spec h (script_of h op) t)
    as [done [Hran [rest [Hsteps Hres]]]].
  rewrite (proj1 (operation_result h op t)) in Hraise.
  destruct (fst (run_script h (script_of h op) t)) as [[]|e];
    [discriminate|].
  injection Hraise as ->.
  destruct Hres as [pre [st [p [-> [_ [Hno He]]]]]].
  exists (attempted pre), st, p.
  rewrite runs_operation, (runs_eq _ _ _ Hran).
  split; [unfold attempted; now rewrite map_app|].
  split.
  { rewrite Hsteps, map_app. apply in_or_app. left.
    apply in_or_app. right. now left. }
  unfold step_exn in He. unfold passes in Hno.
  destruct (completes_within p (default_timeout h)) eqn:Hc;
    [|discriminate].
  injection He as <-. split; trivial.
  split; [now apply completes_within_iff|].
  cbn [andb] in Hno. apply negb_false_iff in Hno.
  unfold real_failure in Hno. apply andb_true_iff in Hno.
  destruct Hno as [H1 H2]. split; [now apply truthy_true|].
  intros Hcl. unfold judged in H2. rewrite Hcl in H2.
  now apply truthy_true.
Qed.

Lemma InstallationError_only_on_real_failure_witness :
  exists before st p,
    runs (run_operation qbittorrent_missing_host Qbittorrent) []
    = (before ++ [(cmd st, p)])%list
    /\ In st (steps (script_of qbittorrent_missing_host Qbittorrent))
    /\ failmsg st = "Failed to install qbittorrent."
    /\ completes p (default_timeout qbittorrent_missing_host)
    /\ stderr p <> ""
    /\ (classified st = true ->
        car_apt_warning qbittorrent_missing_host (stderr p) <> "").
Proof.
  apply (InstallationError_only_on_real_failure qbittorrent_missing_host
           Qbittorrent [] "Failed to install qbittorrent.").
  vm_compute. reflexivity.
Defined.

(** ** What the operations return *)

(** X5.  [pre_install], the installers and [install_not_ppkd_prog] never
    return [False]: each of them returns [True] or raises.  Only [cleanup]
    has [False] among its results. *)
Theorem only_cleanup_returns_False (h : host) (t : trace) :
  (forall op,
     fst (run_operation h op t) = Ret true
     \/ exists e, fst (run_operation h op t) = Raise e)
  /\ (fst (install_poetry h t) = Ret true
      \/ exists e, fst (install_poetry h t) = Raise e)
  /\ (fst (install_not_ppkd_prog h t) = Ret true
      \/ exists e, fst (install_not_ppkd_prog h t) = Raise e).
Proof.
  split; [|split].
  - intros op. rewrite (proj1 (operation_result h op t)).
    destruct (fst (run_script h (script_of h op) t)) as [[]|e];
      [now left | right; now exists e].
  - rewrite install_poetry_log. cbv zeta.
    destruct (completes_within _ _); cbn [fst];
      [now left | right; now exists TimeoutError].
  - rewrite install_not_ppkd_prog_refines. unfold bind, ret.
    destruct (run_guarded (not_ppkd_programs h) t) as [[[]|e] u];
      cbn [fst]; [now left | right; now exists e].
Qed.

Section CleanupFacts.

Variable h : host.

(** X6.  [cleanup] returns [True] exactly when the removal of the downloads
    directory completed with an empty stderr and [apt autoclean && apt clean]
    then completed with a stderr that is empty or that the classifier
    empties. *)
Theorem cleanup_True_iff (t : trace) :
  let c1 := "rm -r " ++ DOWNLOADS_PATH h in
  let p1 := shell h t c1 in
  let p2 := shell h (t ++ [Ran c1 p1])%list "apt autoclean && apt clean" in
  fst (cleanup h t) = Ret true
  <-> completes p1 (default_timeout h) /\ stderr p1 = ""
      /\ completes p2 (default_timeout h)
      /\ (stderr p2 = "" \/ car_apt_warning h (stderr p2) = "").
Proof.
  intros c1 p1 p2. rewrite (cleanup_result h t). cbv zeta.
  fold c1. fold p1. fold p2.
  rewrite <- !completes_within_iff, <- !truthy_false.
  destruct (completes_within p1 (default_timeout h));
    [|cbn [fst]; intuition discriminate].
  destruct (truthy (stderr p1)); [cbn [fst]; intuition discriminate|].
  destruct (completes_within p2 (default_timeout h));
    [|cbn [fst]; intuition discriminate].
  destruct (truthy (stderr p2)); cbn [fst andb negb];
    [|intuition discriminate].
  destruct (truthy (car_apt_warning h (stderr p2))); cbn [negb];
    intuition discriminate.
Qed.

(** X7.  [cleanup] always runs the removal of the downloads directory
    first; it goes on to [apt autoclean && apt clean] exactly when the
    removal completed with an empty stderr, and runs nothing else. *)
Theorem cleanup_commands (t : trace) :
  let c1 := "rm -r " ++ DOWNLOADS_PATH h in
  let p1 := shell h t c1 in
  (completes p1 (default_timeout h) /\ stderr p1 = "" ->
   map fst (runs (cleanup h) t) = [c1; "apt autoclean && apt clean"])
  /\ (~ (completes p1 (default_timeout h) /\ stderr p1 = "") ->
      map fst (runs (cleanup h) t) = [c1]).
Proof.
  intros c1 p1. unfold runs. rewrite (cleanup_result h t). cbv zeta.
  fold c1. fold p1.
  rewrite <- completes_within_iff, <- truthy_false.
  destruct (completes_within p1 (default_timeout h));
    [destruct (truthy (stderr p1));
     [|destruct (completes_within _ (default_timeout h))]|];
    cbn [snd]; rewrite ?ran_ran, <- ?app_assoc, skipn_length_app;
    cbn [map fst app]; split; intros H; trivial;
    try (destruct H; discriminate); exfalso; apply H; now split.
Qed.

End CleanupFacts.

Lemma cleanup_True_iff_witness :
  fst (cleanup quiet_host []) = Ret true.
Proof.
  apply (proj2 (cleanup_True_iff quiet_host [])).
  repeat split; try apply (complains_completes ""); left; reflexivity.
Defined.

Lemma cleanup_commands_witness :
  map fst (runs (cleanup quiet_host) [])
  = [ "rm -r /home/user/inst_downloads"; "apt autoclean && apt clean" ]
  /\ map fst
       (runs (cleanup (host_failing_at "rm -r /home/user/inst_downloads"
                         "rm: cannot remove: No such file or directory"))
          [])
     = [ "rm -r /home/user/inst_downloads" ].
Proof.
  split.
  - apply (proj1 (cleanup_commands quiet_host [])).
    split; [apply (complains_completes "") | reflexivity].
  - apply (proj2 (cleanup_commands
                    (host_failing_at "rm -r /home/user/inst_downloads"
                       "rm: cannot remove: No such file or directory")
                    [])).
    intros [_ H]. vm_compute in H. discriminate H.
Defined.

(** ** Poetry and the multi-program sequence *)

(** X8.  [install_poetry] runs one command and no other: Poetry's
    installation script piped to [python3] when [which] finds [python3], and
    to [python] when it finds none. *)
Theorem install_poetry_picks_python (h : host) (t : trace) :
  (which h "python3" = None ->
   map fst (runs (install_poetry h) t)
   = [ "curl -sSL https://raw.githubusercontent.com/python-poetry/poetry/master/get-poetry.py | python -" ])
  /\ (forall path,
        which h "python3" = Some path -> path <> "" ->
        map fst (runs (install_poetry h) t)
        = [ "curl -sSL https://raw.githubusercontent.com/python-poetry/poetry/master/get-poetry.py | python3 -" ]).
Proof.
  assert (Hruns : map fst (runs (install_poetry h) t) = [poetry_cmd h]).
  { unfold runs. rewrite install_poetry_log. cbv zeta.
    destruct (completes_within _ _); cbn [snd];
      rewrite !ran_app; cbn [ran]; rewrite ?app_nil_r.
    - destruct (truthy _); cbn [ran app];
        now rewrite ?app_nil_r, skipn_length_app.
    - now rewrite skipn_length_app. }
  rewrite Hruns. unfold poetry_cmd, found. split.
  - intros ->. reflexivity.
  - intros path -> Hpath. apply truthy_true in Hpath. now rewrite Hpath.
Qed.

Lemma install_poetry_picks_python_witness :
  map fst (runs (install_poetry host_without_python3) [])
  = [ "curl -sSL https://raw.githubusercontent.com/python-poetry/poetry/master/get-poetry.py | python -" ]
  /\ map fst (runs (install_poetry quiet_host) [])
     = [ "curl -sSL https://raw.githubusercontent.com/python-poetry/poetry/master/get-poetry.py | python3 -" ].
Proof.
  split.
  - apply (proj1 (install_poetry_picks_python host_without_python3 [])).
    reflexivity.
  - apply (proj2 (install_poetry_picks_python quiet_host [])
             "/usr/bin/python3"); [reflexivity | discriminate].
Defined.

(** X9.  [install_not_ppkd_prog] takes the programs in the order Brave
    Browser, Docker, Fish, Chrome, Poetry: the commands it runs are an
    initial segment of the commands of these installers put end to end,
    with the command of Poetry twice at the end, and all of them when it
    returns. *)
Theorem install_not_ppkd_prog_order (h : host) (t : trace) :
  let all :=
    (commands_of h BraveBrowser ++ commands_of h Docker
     ++ commands_of h FishShell ++ commands_of h GoogleChrome
     ++ [poetry_cmd h; poetry_cmd h])%list in
  (exists n, map fst (runs (install_not_ppkd_prog h) t) = firstn n all)
  /\ (forall b,
        fst (install_not_ppkd_prog h t) = Ret b ->
        map fst (runs (install_not_ppkd_prog h) t) = all).
Proof.
  intros all.
  destruct (logs_install_not_ppkd_prog h t) as [new [Hran [[rest Hpre] Hall]]].
  rewrite (runs_eq _ _ _ Hran).
  change all with (not_ppkd_commands h). split.
  - exists (List.length (map fst new)).
    now apply prefix_firstn with (rest := rest).
  - exact Hall.
Qed.

Lemma install_not_ppkd_prog_order_witness :
  List.length (runs (install_not_ppkd_prog quiet_host) []) = 16%nat
  /\ map fst (runs (install_not_ppkd_prog quiet_host) [])
     = (commands_of quiet_host BraveBrowser ++ commands_of quiet_host Docker
        ++ commands_of quiet_host FishShell
        ++ commands_of quiet_host GoogleChrome
        ++ [poetry_cmd quiet_host; poetry_cmd quiet_host])%list.
Proof.
  split; [vm_compute; reflexivity|].
  apply (proj2 (install_not_ppkd_prog_order quiet_host []) true).
  vm_compute. reflexivity.
Defined.

(** A guarded sequence whose installers all return, returns. *)
Lemma run_guarded_returns (l : list guarded) :
  Forall (fun g => forall u, exists b, fst (installer g u) = Ret b) l ->
  forall t, fst (run_guarded l t) = Ret tt.
Proof.
  induction 1 as [|g l Hg Hl IH]; intros t; [reflexivity|].
  cbn [run_guarded]. rewrite bind_print.
  unfold bind, try_except, print.
  destruct (Hg (t ++ [Printed (announce g)])%list) as [b Hb].
  destruct (installer g _) as [[b'|e] u]; [|discriminate]. apply IH.
Qed.

(** X10.  On a host where every command completes in time and writes
    nothing to its stderr, every operation of [installers.py] returns
    [True]. *)
Theorem quiet_shell_all_True (h : host) (t : trace) :
  quiet_shell h ->
  (forall op, fst (run_operation h op t) = Ret true)
  /\ fst (install_poetry h t) = Ret true
  /\ fst (install_not_ppkd_prog h t) = Ret true
  /\ fst (cleanup h t) = Ret true.
Proof.
  intros Hq.
  assert (Hpass : forall u st, passes h st (shell h u (cmd st)) = true).
  { intros u st. destruct (Hq u (cmd st)) as [Hc He].
    unfold passes, real_failure. now rewrite Hc, He. }
  assert (Hop : forall op u, fst (run_operation h op u) = Ret true).
  { intros op u.
    apply (steps_pass_returns_True h op u).
    intros v st _. apply Hpass. }
  assert (Hpoetry : forall u, fst (install_poetry h u) = Ret true).
  { intros u. rewrite install_poetry_log. cbv zeta.
    now rewrite (proj1 (Hq _ _)). }
  split; [intros op; apply Hop|]. split; [apply Hpoetry|]. split.
  - rewrite install_not_ppkd_prog_refines. unfold bind, ret.
    assert (Hg : fst (run_guarded (not_ppkd_programs h) t) = Ret tt).
    { apply run_guarded_returns. unfold not_ppkd_programs.
      repeat constructor; cbn [installer]; intros u; exists true.
      - apply (Hop BraveBrowser).
      - apply (Hop Docker).
      - apply (Hop FishShell).
      - apply (Hop GoogleChrome).
      - apply Hpoetry.
      - apply Hpoetry. }
    destruct (run_guarded (not_ppkd_programs h) t) as [[[]|e] u];
      [reflexivity | discriminate].
  - rewrite (cleanup_result h t). cbv zeta.
    rewrite !(proj1 (Hq _ _)), !(proj2 (Hq _ _)). reflexivity.
Qed.

Lemma quiet_shell_all_True_witness :
  fst (install_not_ppkd_prog quiet_host []) = Ret true
  /\ fst (cleanup quiet_host []) = Ret true.
Proof.
  destruct (quiet_shell_all_True quiet_host []) as [_ [_ [H1 H2]]].
  - intros u c. split; reflexivity.
  - now split.
Defined.

(** ** The downloads directory and the log of a failure *)

(** An operation whose script has a step runs at least its first command. *)
Lemma operation_runs_first_command (h : host) (op : operation) (t : trace)
    (c : string) (more : list string) :
  commands_of h op = c :: more ->
  exists n,
    map fst (runs (run_operation h op) t) = firstn (S n) (commands_of h op).
Proof.
  intros Hc. unfold commands_of in Hc.
  destruct (steps (script_of h op)) as [|st sts] eqn:Hs; [discriminate|].
  destruct (first_step_runs h _ st sts t Hs) as [p [rest Hfirst]].
  destruct (logs_operation h op t) as [new [Hran [[rest' Hpre] _]]].
  rewrite runs_operation, Hfirst. rewrite <- runs_operation in Hfirst.
  rewrite (runs_eq _ _ _ Hran) in Hfirst. subst new.
  exists (List.length (map fst rest)).
  unfold commands_of. rewrite Hs in *.
  change (S (List.length (map fst rest)))
    with (List.length (map fst ((cmd st, p) :: rest))).
  now apply prefix_firstn with (rest := rest').
Qed.

(** X11.  Whatever the working directory, [pre_install],
    [install_google_chrome] and [cleanup] build their commands from one and
    the same path text, the working directory followed by
    [/inst_downloads], spliced in as it is, unquoted: the argument of
    [mkdir], of both [cd] of Chrome's installer, which downloads and installs
    under one file name, and of [rm -r].  Each of the three runs at least its
    first command. *)
Theorem downloads_directory_is_shared (h : host) (t1 t2 t3 : trace) :
  let dir := cwd h ++ "/inst_downloads" in
  let deb := "google-chrome-stable_current_amd64.deb" in
  map fst (runs (pre_install h) t1) = [ "mkdir " ++ dir ]
  /\ (exists n,
        map fst (runs (install_google_chrome h) t2)
        = firstn (S n)
            [ "cd " ++ dir ++ " && curl -sO https://dl.google.com/linux/direct/"
              ++ deb;
              "cd " ++ dir ++ " && apt install -y ./" ++ deb ])
  /\ (exists n,
        map fst (runs (cleanup h) t3)
        = firstn (S n) [ "rm -r " ++ dir; "apt autoclean && apt clean" ]).
Proof.
  intros dir deb. split; [|split].
  - destruct (operation_runs_first_command h PreInstall t1 _ _ eq_refl)
      as [n Hn].
    change (pre_install h) with (run_operation h PreInstall). rewrite Hn.
    cbn. now rewrite firstn_nil.
  - exact (operation_runs_first_command h GoogleChrome t2 _ _ eq_refl).
  - unfold runs. rewrite (cleanup_result h t3). cbv zeta.
    destruct (completes_within _ _);
      [destruct (truthy _); [|destruct (completes_within _ _)]|];
      cbn [snd]; rewrite ?ran_ran, <- ?app_assoc, skipn_length_app;
      first [now exists 0%nat | now exists 1%nat].
Qed.

Section FailureLog.

Variable h : host.

Lemma run_script_failure_log (s : list instr) (t : trace) (e : exn) :
  fst (run_script h s t) = Raise e ->
  exists log st p,
    In st (steps s)
    /\ (snd (run_script h s t) = (log ++ [Ran (cmd st) p])%list
        \/ (echo st = true
            /\ snd (run_script h s t)
               = (log ++ [ Ran (cmd st) p;
                           Printed (judged h st (stderr p)) ])%list)).
Proof.
  revert t; induction s as [|[x|st] s IH]; intros t.
  - discriminate.
  - cbn [run_script]. rewrite bind_print. apply IH.
  - cbn [run_script steps]. unfold bind.
    destruct (run_step h st t) as [[[]|e'] u] eqn:E.
    + intros Hr. destruct (IH u Hr) as [log [st' [p [Hin Hlog]]]].
      exists log, st', p. split; [now right | exact Hlog].
    + intros _. exists t, st, (shell h t (cmd st)).
      split; [now left|]. cbn [snd].
      revert E. unfold run_step, bind, comm_, comm, when, print, raise, ret.
      destruct (completes_within _ _); [|intros E; injection E as _ <-; now left].
      destruct (truthy (stderr _)); [|discriminate].
      destruct (truthy (judged h st _)); [|discriminate].
      destruct (echo st); intros E; injection E as _ <-.
      * right. split; trivial. now rewrite <- app_assoc.
      * now left.
Qed.

(** X12.  When an operation raises, the last thing it did was to run the
    failing command, or, in the steps that echo it, to print that command's
    error text: nothing is run and no progress or success message is printed
    after a failure. *)
Theorem failure_ends_the_log (op : operation) (t : trace) (e : exn) :
  fst (run_operation h op t) = Raise e ->
  exists log st p,
    In st (steps (script_of h op))
    /\ (snd (run_operation h op t) = (log ++ [Ran (cmd st) p])%list
        \/ (echo st = true
            /\ snd (run_operation h op t)
               = (log ++ [ Ran (cmd st) p;
                           Printed (judged h st (stderr p)) ])%list)).
Proof.
  destruct (operation_result h op t) as [Hfst ->]. rewrite Hfst.
  destruct (fst (run_script h (script_of h op) t)) as [[]|e'] eqn:E;
    [discriminate|].
  intros _. now apply run_script_failure_log with (e := e').
Qed.

End FailureLog.

Lemma failure_ends_the_log_witness :
  exists log st p,
    In st (steps (script_of qbittorrent_missing_host Qbittorrent))
    /\ (snd (run_operation qbittorrent_missing_host Qbittorrent [])
        = (log ++ [Ran (cmd st) p])%list
        \/ (echo st = true
            /\ snd (run_operation qbittorrent_missing_host Qbittorrent [])
               = (log ++ [ Ran (cmd st) p;
                           Printed (judged qbittorrent_missing_host st
                                      (stderr p)) ])%list)).
Proof.
  apply (failure_ends_the_log qbittorrent_missing_host Qbittorrent []
           (InstallationError "Failed to install qbittorrent.")).
  vm_compute. reflexivity.
Defined.
